(** * FPGADevice: pseudoclock codec and smart programming

    A shallow embedding of [FPGADevice.py]: the instruction reducer
    ([reduce_clock_instructions]), the clock/toggle encoder
    ([convert_to_clocks_and_toggles]), the clock expander ([expand_clock]),
    the connection-string check of [OutputIntermediateDevice.add_device] and
    the worker's [transition_to_buffered] with its smart cache.

    Conventions of the embedding:
    - Python integers are [Z]; a function that can raise returns a [result].
    - Periods, clock rates, times and samples are Python floats.  They are
      reached through the interface [Number], which lists the operations the
      source applies to them.  Two instances are given: exact arithmetic on
      rationals ([Qc]), in which the theorems about times and samples are
      stated, and IEEE binary64 ([float]), which is what CPython and numpy
      compute with and on which the examples are evaluated as well.  The
      theorems about the reducer hold for every instance.
    - A numpy array is a list; [np.any(a != b)] is [changed], which
      compares as numpy does: element by element for two arrays of the same
      length, a one-element array with every element of the other array
      (broadcasting), and as different for every other pair of lengths and
      when there is no array [b].
    - A group of the shot file is the list of its datasets, name and array,
      in iteration order; the names of a group are distinct.
    - The worker's state is threaded through the monad [M]; the calls on
      [self.interface] are logged, and the transport behind it is a
      parameter that decides which calls return. *)

From Stdlib Require Import Ascii String ZArith QArith Qcanon Uint63 PrimFloat FloatOps SpecFloat.
From stdpp Require Import base option list numbers strings gmap.

Local Open Scope Z_scope.

(** ** Python results *)

(** The exceptions the modelled code can raise.  [TransportError] stands
    for whatever a call on [self.interface] raises when the transport
    fails. *)
Inductive exn :=
  | LabscriptError (msg : string)
  | IndexError
  | ValueError
  | OverflowError
  | TransportError.

(** A call either returns a value or raises. *)
Inductive result (A : Type) :=
  | Ok (a : A)
  | Raise (e : exn).
Arguments Ok {A} a.
Arguments Raise {A} e.

#[global] Instance result_ret : MRet result := @Ok.
#[global] Instance result_bind : MBind result := λ A B f r,
  match r with
  | Ok a => f a
  | Raise e => Raise e
  end.

Definition is_ok {A} (r : result A) : bool :=
  match r with Ok _ => true | Raise _ => false end.

(** ** Numbers *)

(** The operations the source applies to periods, clock rates and times.
    [py_int] is [int(x)], truncation towards zero, which raises on values
    that have no integer part. *)
Class Number (T : Type) := {
  of_int : Z → T;
  py_eq : T → T → bool;
  py_gt : T → T → bool;
  py_add : T → T → T;
  py_mul : T → T → T;
  py_div : T → T → T;
  py_int : T → result Z
}.

(** Exact arithmetic on canonical rationals: floats without rounding.
    [==] is equality.  Division is [Qcdiv], which is total ([x / 0 = 0]). *)
#[global] Instance exact : Number Qc := {
  of_int := Qc_of_Z;
  py_eq x y := bool_decide (x = y);
  py_gt x y := bool_decide (y < x)%Qc;
  py_add := Qcplus;
  py_mul := Qcmult;
  py_div := Qcdiv;
  py_int x := Ok (Z.quot (Qnum x) (Zpos (Qden x)))
}.

(** [int(x)] on a binary64 value: the integer part of [±m·2^e]; infinities
    and NaN raise. *)
Definition float_int (x : float) : result Z :=
  match Prim2SF x with
  | S754_zero _ => Ok 0
  | S754_finite s m e =>
      let a := match e with
               | Z0 => Zpos m
               | Zpos p => Z.shiftl (Zpos m) (Zpos p)
               | Zneg p => Z.shiftr (Zpos m) (Zpos p)
               end in
      Ok (if s then - a else a)
  | S754_infinity _ => Raise OverflowError
  | S754_nan => Raise ValueError
  end.

(** An integer of 64 bits, as numpy holds them, as the nearest binary64
    value. *)
Definition float_of_int (n : Z) : float :=
  if n <? 0 then PrimFloat.opp (PrimFloat.of_uint63 (Uint63.of_Z (- n)))
  else PrimFloat.of_uint63 (Uint63.of_Z n).

#[global] Instance binary64 : Number float := {
  of_int := float_of_int;
  py_eq := PrimFloat.eqb;
  py_gt x y := PrimFloat.ltb y x;
  py_add := PrimFloat.add;
  py_mul := PrimFloat.mul;
  py_div := PrimFloat.div;
  py_int := float_int
}.

(** ** Instruction reducer *)

(** A period/repetitions dictionary [{'step': s, 'reps': r}]. *)
Record dict (T : Type) := Dict { step : T; reps : Z }.
Arguments Dict {T} step reps.
Arguments step {T} d.
Arguments reps {T} d.

(** An element of a pseudoclock's [clock] list: the string ['WAIT'] or a
    dictionary. *)
Inductive instruction (T : Type) :=
  | WAIT
  | Instr (d : dict T).
Arguments WAIT {T}.
Arguments Instr {T} d.

Section Reducer.
Context {T : Type} `{Number T}.

(** One iteration of the loop of [reduce_clock_instructions]:
    [reduced_instructions] is the list built so far, extended at its end
    or updated at its last position. *)
Definition reduce_step (reduced_instructions : list (dict T))
    (instruction : instruction T) : list (dict T) :=
  match instruction with
  | WAIT => reduced_instructions ++ [Dict (of_int 0) 1]
  | Instr d =>
      match last reduced_instructions with
      | Some prev =>
          if py_eq (step prev) (step d)
          then alter (λ p, Dict (step p) (reps p + reps d))
                     (pred (length reduced_instructions)) reduced_instructions
          else reduced_instructions ++ [Dict (step d) (reps d)]
      | None => reduced_instructions ++ [Dict (step d) (reps d)]
      end
  end.

Definition reduce_clock_instructions (clock : list (instruction T))
    : list (dict T) :=
  fold_left reduce_step clock [].

(** A reduced list read again as a clock list, as when the reducer is run
    on its own output. *)
Definition as_clock (reduced : list (dict T)) : list (instruction T) :=
  Instr <$> reduced.

Definition is_wait (i : instruction T) : bool :=
  match i with WAIT => true | Instr _ => false end.

(** The clock list holds no ['WAIT']. *)
Definition no_wait (clock : list (instruction T)) : bool :=
  forallb (λ i, negb (is_wait i)) clock.

(** The dictionaries of a clock list, in order. *)
Definition dicts (clock : list (instruction T)) : list (dict T) :=
  omap (λ i, match i with WAIT => None | Instr d => Some d end) clock.

(** The list starts with a dictionary whose step compares equal to the
    step of a wait element. *)
Definition starts_zero (clock : list (instruction T)) : bool :=
  match clock with
  | Instr d :: _ => py_eq (of_int 0) (step d)
  | _ => false
  end.

(** No two neighbours compare equal on ['step']. *)
Fixpoint distinct_adjacent (l : list (dict T)) : bool :=
  match l with
  | e1 :: (e2 :: _) as l' => negb (py_eq (step e1) (step e2)) && distinct_adjacent l'
  | _ => true
  end.

(** The periods of a list, each written out [reps] times. *)
Definition flatten (l : list (dict T)) : list T :=
  l ≫= λ d, replicate (Z.to_nat (reps d)) (step d).

(** The total duration: the sum of [step * reps]. *)
Definition duration (l : list (dict T)) : T :=
  foldr (λ d total, py_add (py_mul (step d) (of_int (reps d))) total) (of_int 0) l.

(** The loop seen from its last element: [run e clock] is what the loop
    makes of [clock] when the list built so far ends in [e]. *)
Fixpoint run (e : dict T) (clock : list (instruction T)) : list (dict T) :=
  match clock with
  | [] => [e]
  | WAIT :: clock' => e :: run (Dict (of_int 0) 1) clock'
  | Instr d :: clock' =>
      if py_eq (step e) (step d)
      then run (Dict (step e) (reps e + reps d)) clock'
      else e :: run (Dict (step d) (reps d)) clock'
  end.

End Reducer.

(** ** Clock/toggle encoder *)

(** The output attached to a pseudoclock, by its class.  [raw_output] is
    the array of the digital output's values; classes other than
    [DigitalOut] and [AnalogOut] are kept by their name. *)
Inductive output :=
  | DigitalOut (raw_output : list Z)
  | AnalogOut
  | OtherOutput (class_name : string).

Section Encoder.
Context {T : Type} `{Number T}.

(** [int(tick['step'] * clock_limit) - 1] *)
Definition hold_clocks (tick : dict T) (clock_limit : T) : result Z :=
  n ← py_int (py_mul (step tick) clock_limit);
  Ok (n - 1).

(** The initial clock state, chosen by the class of the output. *)
Definition initial_state_of (output : output) : result Z :=
  match output with
  | DigitalOut raw_output =>
      match raw_output with
      | s :: _ => Ok s
      | [] => Raise IndexError
      end
  | AnalogOut => Ok 0
  | OtherOutput class_name =>
      Raise (LabscriptError
        ("Conversion to clocks and toggles not supported for output type '"
           +:+ class_name +:+ "'."))
  end.

(** The part of the loop body after the [if i == 0] block. *)
Definition append_toggles (tick : dict T) (clock_limit : T)
    (ct_clock : list (Z * Z)) : result (list (Z * Z)) :=
  let toggles := reps tick - 1 in
  n_clocks ← hold_clocks tick clock_limit;
  Ok (ct_clock ++ [(n_clocks, toggles)]).

(** The body of the loop over [enumerate(clock)].  The source decrements
    [tick['reps']] in place in the first iteration; the decremented
    dictionary is read again only within that iteration. *)
Definition convert_tick (i : nat) (tick : dict T) (output : output)
    (clock_limit : T) (ct_clock : list (Z * Z)) : result (list (Z * Z)) :=
  if bool_decide (i = 0%nat) then
    initial_state ← initial_state_of output;
    n_clocks ← hold_clocks tick clock_limit;
    let ct_clock := ct_clock ++ [(n_clocks, initial_state)] in
    let tick := Dict (step tick) (reps tick - 1) in
    if reps tick =? 0 then Ok ct_clock
    else append_toggles tick clock_limit ct_clock
  else append_toggles tick clock_limit ct_clock.

Fixpoint convert_loop (i : nat) (clock : list (dict T)) (output : output)
    (clock_limit : T) (ct_clock : list (Z * Z)) : result (list (Z * Z)) :=
  match clock with
  | [] => Ok ct_clock
  | tick :: clock' =>
      ct_clock ← convert_tick i tick output clock_limit ct_clock;
      convert_loop (S i) clock' output clock_limit ct_clock
  end.

Definition convert_to_clocks_and_toggles (clock : list (dict T))
    (output : output) (clock_limit : T) : result (list (Z * Z)) :=
  convert_loop 0 clock output clock_limit [].

End Encoder.

(** ** Clock expander *)

Section Expander.
Context {T : Type} `{Number T}.

(** The loop [for i in range(toggles)], [k] iterations left; leaving the
    loop by [break] keeps the times collected so far. *)
Fixpoint toggle_loop (k : nat) (n_clocks : Z) (clock_limit stop_time : T)
    (times : list T) : result (list T) :=
  match k with
  | O => Ok times
  | S k' =>
      match last times with
      | None => Raise IndexError
      | Some t =>
          let new_time := py_add t (py_div (of_int n_clocks) clock_limit) in
          if py_gt new_time stop_time then Ok times
          else toggle_loop k' n_clocks clock_limit stop_time (times ++ [new_time])
      end
  end.

Fixpoint expand_loop (i : nat) (clock : list (Z * Z)) (clock_limit stop_time : T)
    (times : list T) : result (list T) :=
  match clock with
  | [] => Ok times
  | (n_clocks, toggles) :: clock' =>
      times ← (if bool_decide (i = 0%nat)
               then Ok (times ++ [py_div (of_int n_clocks) clock_limit])
               else toggle_loop (Z.to_nat toggles) n_clocks clock_limit stop_time times);
      expand_loop (S i) clock' clock_limit stop_time times
  end.

Definition expand_clock (clock : list (Z * Z)) (clock_limit stop_time : T)
    : result (list T) :=
  expand_loop 0 clock clock_limit stop_time [].

End Expander.

(** ** Connection strings *)

(** [s.split(sep)] for a one-character separator: every occurrence of
    [sep] ends a token, so the result is never empty. *)
Fixpoint split (sep : ascii) (s : string) : list string :=
  match s with
  | EmptyString => [EmptyString]
  | String c s' =>
      if Ascii.eqb c sep then EmptyString :: split sep s'
      else match split sep s' with
           | w :: ws => String c w :: ws
           | [] => [String c EmptyString]
           end
  end.

Fixpoint space_free (s : string) : bool :=
  match s with
  | EmptyString => true
  | String c s' => negb (Ascii.eqb c " ") && space_free s'
  end.

(** The characters [int] skips around a number: space, tab, line feed,
    vertical tab, form feed, carriage return. *)
Definition is_space (c : ascii) : bool :=
  let n := nat_of_ascii c in
  (Nat.eqb n 32 || (Nat.leb 9 n && Nat.leb n 13))%nat.

Definition is_digit (c : ascii) : bool :=
  let n := nat_of_ascii c in (Nat.leb 48 n && Nat.leb n 57)%nat.

Fixpoint lstrip (s : string) : string :=
  match s with
  | String c s' => if is_space c then lstrip s' else s
  | EmptyString => EmptyString
  end.

Fixpoint rstrip (s : string) : string :=
  match s with
  | EmptyString => EmptyString
  | String c s' =>
      match rstrip s' with
      | EmptyString => if is_space c then EmptyString else String c EmptyString
      | r => String c r
      end
  end.

(** The value of a string of decimal digits, [None] if another character
    occurs. *)
Fixpoint digits_value (acc : Z) (s : string) : option Z :=
  match s with
  | EmptyString => Some acc
  | String c s' =>
      if is_digit c
      then digits_value (10 * acc + (Z.of_nat (nat_of_ascii c) - 48)) s'
      else None
  end.

(** [int(s)] for a string, base ten: an optional sign and one or more
    digits, possibly surrounded by whitespace; anything else raises
    [ValueError]. *)
Definition int_of_string (s : string) : result Z :=
  let s := rstrip (lstrip s) in
  let '(sign, body) :=
    match s with
    | String "-" b => (-1, b)
    | String "+" b => (1, b)
    | _ => (1, s)
    end in
  match body with
  | EmptyString => Raise ValueError
  | _ => match digits_value 0 body with
         | Some n => Ok (sign * n)
         | None => Raise ValueError
         end
  end.

(** A labscript device as [add_device] reads it. *)
Record device := Device {
  device_name : string;
  description : string;
  connection : string
}.

Record OutputIntermediateDevice := OID {
  name : string;
  child_devices : list device;
  output_of : option device    (* self.output *)
}.

(** The body of the [try] block of [add_device]. *)
Definition check_connection (connection : string) : result (string * Z) :=
  match split " " connection with
  | [prefix; channel] =>
      if negb (String.eqb prefix "analog") && negb (String.eqb prefix "digital")
      then Raise ValueError
      else channel ← int_of_string channel; Ok (prefix, channel)
  | _ => Raise ValueError
  end.

(** A connection string of the form the [try] block accepts: the word
    [analog] or [digital], one space, and a token without spaces that [int]
    reads as an integer. *)
Definition well_formed_connection (connection : string) : Prop :=
  ∃ prefix channel,
    connection = prefix +:+ " " +:+ channel
    ∧ (prefix = "analog" ∨ prefix = "digital")
    ∧ space_free channel = true
    ∧ is_ok (int_of_string channel) = true.

(** [OutputIntermediateDevice.add_device].  The call to the base class,
    [IntermediateDevice.add_device], is labscript's: for an output it
    appends the device to [child_devices]. *)
Definition add_device (self : OutputIntermediateDevice) (device : device)
    : result OutputIntermediateDevice :=
  match child_devices self with
  | first :: _ =>
      Raise (LabscriptError
        ("Output '" +:+ device_name first
           +:+ "' is already connected to the OutputIntermediateDevice '"
           +:+ name self +:+ "'.Only one output is allowed."))
  | [] =>
      match check_connection (connection device) with
      | Ok _ =>
          Ok {| name := name self;
                child_devices := child_devices self ++ [device];
                output_of := Some device |}
      | Raise ValueError =>
          Raise (LabscriptError
            (description device +:+ " " +:+ device_name device
               +:+ " has invalid connection string '" +:+ connection device
               +:+ "'.Format must be 'analog|digital #'."))
      | Raise e => Raise e
      end
  end.

(** ** BLACS worker: [transition_to_buffered] and the smart cache *)

(** The calls the worker makes on [self.interface] while programming. *)
Inductive call (T : Type) :=
  | send_pseudoclock (board_number channel_number : nat) (clock : list (Z * Z))
  | send_analog_data (board_number channel_number : nat)
      (range_min range_max : T) (data : list T).
Arguments send_pseudoclock {T} board_number channel_number clock.
Arguments send_analog_data {T} board_number channel_number range_min range_max data.

(** An entry of the [final_state] dictionary. *)
Inductive value (T : Type) :=
  | digital_state (z : Z)
  | analog_sample (x : T).
Arguments digital_state {T} z.
Arguments analog_sample {T} x.

(** The device group of the shot file.  Each subgroup lists its datasets
    in the order in which iterating over the group yields them. *)
Record device_group (T : Type) := DeviceGroup {
  clocks : list (string * list (Z * Z));
  analog_data : list (string * list T);
  analog_limits : list (string * (T * T))
}.
Arguments DeviceGroup {T} clocks analog_data analog_limits.
Arguments clocks {T} d.
Arguments analog_data {T} d.
Arguments analog_limits {T} d.

(** The worker: the two dictionaries of [self.smart_cache] that
    [transition_to_buffered] uses, and the calls made so far on
    [self.interface], oldest first. *)
Record worker (T : Type) := Worker {
  cache_clocks : gmap string (list (Z * Z));
  cache_data : gmap string (list T);
  interface_calls : list (call T)
}.
Arguments Worker {T} cache_clocks cache_data interface_calls.
Arguments cache_clocks {T} w.
Arguments cache_data {T} w.
Arguments interface_calls {T} w.

(** [group.get(name)]: the dataset of that name, [None] if the group has
    none.  A dataset that is there counts as true in a condition. *)
Fixpoint group_get {A : Type} (group : list (string * A)) (name : string) : option A :=
  match group with
  | [] => None
  | (n, v) :: group' => if String.eqb n name then Some v else group_get group' name
  end.

(** [np.any(a != b)] for two one-dimensional arrays.  numpy compares two
    arrays of the same length element by element.  It broadcasts an array of
    one element: the element is compared with every element of the other
    array, so that no element differs when the other array is empty.  For
    every other pair of lengths the comparison of the arrays fails and [!=]
    gives [True]. *)
Definition array_ne {A : Type} (eqb : A → A → bool) (a b : list A) : bool :=
  match a, b with
  | [x], _ => existsb (λ y, negb (eqb x y)) b
  | _, [y] => existsb (λ x, negb (eqb x y)) a
  | _, _ =>
      if (length a =? length b)%nat
      then existsb (λ p, negb (eqb p.1 p.2)) (zip a b)
      else true
  end.

(** [np.any(new != cached)], where [cached] is what [dict.get] returned:
    [new != None] is [True]. *)
Definition changed {A : Type} (eqb : A → A → bool) (new : list A)
    (cached : option (list A)) : bool :=
  match cached with
  | None => true
  | Some old => array_ne eqb new old
  end.

Definition tick_eqb (a b : Z * Z) : bool := (a.1 =? b.1) && (a.2 =? b.2).

(** [sum(clock['toggles'])] *)
Definition sum_toggles (clock : list (Z * Z)) : Z := foldr Z.add 0 (clock.*2).

(** A worker method: it runs on the worker's state and returns or raises,
    leaving the state as it was at that point. *)
Definition M (T A : Type) : Type := worker T → result A * worker T.

#[global] Instance M_ret {T} : MRet (M T) := λ A a w, (Ok a, w).
#[global] Instance M_bind {T} : MBind (M T) := λ A B f m w,
  match m w with
  | (Ok a, w') => f a w'
  | (Raise e, w') => (Raise e, w')
  end.

Definition raise {T A} (e : exn) : M T A := λ w, (Raise e, w).

Section Worker.
Context {T : Type} `{Number T}.

(** The transport behind [self.interface]: given the calls made before,
    whether this call returns ([true]) or raises ([false]). *)
Variable interface : list (call T) → call T → bool.

Definition interface_call (c : call T) : M T unit := λ w,
  let w' := Worker (cache_clocks w) (cache_data w) (interface_calls w ++ [c]) in
  if interface (interface_calls w) c then (Ok tt, w') else (Raise TransportError, w').

Definition get_cache_clocks (output : string) : M T (option (list (Z * Z))) := λ w,
  (Ok (cache_clocks w !! output), w).

Definition set_cache_clocks (output : string) (clock : list (Z * Z)) : M T unit := λ w,
  (Ok tt, Worker (<[output := clock]> (cache_clocks w)) (cache_data w) (interface_calls w)).

Definition get_cache_data (output : string) : M T (option (list T)) := λ w,
  (Ok (cache_data w !! output), w).

Definition set_cache_data (output : string) (data : list T) : M T unit := λ w,
  (Ok tt, Worker (cache_clocks w) (<[output := data]> (cache_data w)) (interface_calls w)).

(** The body of the loop [for i, output in enumerate(clocks)]. *)
Definition program_clock (fresh_program : bool) (group : device_group T)
    (i : nat) (output : string) (clock : list (Z * Z))
    (final_state : gmap string (value T)) : M T (gmap string (value T)) :=
  cached ← get_cache_clocks output;
  (if fresh_program || changed tick_eqb clock cached
   then set_cache_clocks output clock;;
        interface_call (send_pseudoclock 0 i clock)
   else mret tt);;
  match group_get (analog_data group) output with
  | None =>
      let n_toggles := sum_toggles clock in
      match clock with
      | first :: _ =>
          mret (<[output := digital_state (first.2 + (n_toggles `mod` 2))]> final_state)
      | [] => raise IndexError
      end
  | Some _ => mret final_state
  end.

(** [limits[output].value], with the range [0, 5] when the limits group has
    no such dataset. *)
Definition limits_of (group : device_group T) (output : string) : T * T :=
  match group_get (analog_limits group) output with
  | Some limits => limits
  | None => (of_int 0, of_int 5)
  end.

(** The body of the loop [for i, output in enumerate(analog_data)]. *)
Definition program_data (fresh_program : bool) (group : device_group T)
    (i : nat) (output : string) (data : list T)
    (final_state : gmap string (value T)) : M T (gmap string (value T)) :=
  cached ← get_cache_data output;
  if fresh_program || changed py_eq data cached
  then
    match last data with
    | None => raise IndexError
    | Some x =>
        let final_state := <[output := analog_sample x]> final_state in
        set_cache_data output data;;
        let '(range_min, range_max) := limits_of group output in
        interface_call (send_analog_data 0 i range_min range_max data);;
        mret final_state
    end
  else mret final_state.

(** A [for i, output in enumerate(datasets)] loop with body [body],
    from index [i] on. *)
Fixpoint for_enumerate {A : Type}
    (body : nat → string → list A → gmap string (value T) → M T (gmap string (value T)))
    (i : nat) (datasets : list (string * list A))
    (final_state : gmap string (value T)) : M T (gmap string (value T)) :=
  match datasets with
  | [] => mret final_state
  | (output, array) :: datasets' =>
      final_state ← body i output array final_state;
      for_enumerate body (S i) datasets' final_state
  end.

Definition transition_to_buffered (group : device_group T) (fresh_program : bool)
    : M T (gmap string (value T)) :=
  final_state ← for_enumerate (program_clock fresh_program group) 0 (clocks group) ∅;
  for_enumerate (program_data fresh_program group) 0 (analog_data group) final_state.

(** The calls a run makes when none of them raises: for each dataset, in
    order, a call exactly when a fresh program is requested or [changed]
    holds of the array and the cache entry. *)
Fixpoint clock_calls (fresh_program : bool) (cache : gmap string (list (Z * Z)))
    (i : nat) (datasets : list (string * list (Z * Z))) : list (call T) :=
  match datasets with
  | [] => []
  | (output, clock) :: datasets' =>
      (if fresh_program || changed tick_eqb clock (cache !! output)
       then [send_pseudoclock 0 i clock] else [])
      ++ clock_calls fresh_program cache (S i) datasets'
  end.

Fixpoint data_calls (fresh_program : bool) (group : device_group T)
    (cache : gmap string (list T))
    (i : nat) (datasets : list (string * list T)) : list (call T) :=
  match datasets with
  | [] => []
  | (output, data) :: datasets' =>
      (if fresh_program || changed py_eq data (cache !! output)
       then [send_analog_data 0 i (limits_of group output).1
               (limits_of group output).2 data]
       else [])
      ++ data_calls fresh_program group cache (S i) datasets'
  end.

(** The cache entry of the dataset a call transmits holds the array passed
    to the call. *)
Definition cache_holds (group : device_group T) (w : worker T) (c : call T) : Prop :=
  match c with
  | send_pseudoclock _ i clock =>
      ∃ output, clocks group !! i = Some (output, clock)
                ∧ cache_clocks w !! output = Some clock
  | send_analog_data _ i _ _ data =>
      ∃ output, analog_data group !! i = Some (output, data)
                ∧ cache_data w !! output = Some data
  end.

End Worker.

(** ** Values used in the examples *)

(** Numbers written as fractions, for the examples. *)
Definition ratio (a : Z) (b : positive) : Qc := Q2Qc (Qmake a b).

(** The periods 0.1 and 0.2 as Python reads them: the nearest binary64
    values. *)
Definition float_0_1 : float := 0x1.999999999999ap-4%float.
Definition float_0_2 : float := 0x1.999999999999ap-3%float.

(** A transport on which every call returns, and one on which every call
    raises. *)
Definition transport_up : list (call Qc) → call Qc → bool := λ _ _, true.
Definition transport_down : list (call Qc) → call Qc → bool := λ _ _, false.

(** A worker whose cache is empty, as [init] leaves it. *)
Definition fresh_worker : worker Qc := Worker ∅ ∅ [].

(** A shot file with an analog output and a digital output. *)
Definition example_group : device_group Qc :=
  DeviceGroup
    [("analog 0", [(0, 0); (0, 1)]); ("digital 1", [(0, 1); (0, 1)])]
    [("analog 0", [Qc_of_Z 1; Qc_of_Z 2])]
    [].

(** A shot file with one digital output that starts high and never
    toggles. *)
Definition high_group : device_group Qc :=
  DeviceGroup [("digital 0", [(0, 1)])] [] [].

(** Two shots of an analog output that is held at one value: in the first
    the output has a single sample, in the second the same value three
    times, clocked by one more tick. *)
Definition short_group : device_group Qc :=
  DeviceGroup [("analog 0", [(0, 0)])] [("analog 0", [Qc_of_Z 2])] [].

Definition longer_group : device_group Qc :=
  DeviceGroup [("analog 0", [(0, 0); (0, 2)])]
    [("analog 0", [Qc_of_Z 2; Qc_of_Z 2; Qc_of_Z 2])] [].

(** The final state a run returns, [∅] if it raises. *)
Definition returned (r : result (gmap string (value Qc)) * worker Qc)
    : gmap string (value Qc) :=
  match r.1 with Ok final_state => final_state | Raise _ => ∅ end.

(** * Properties *)

(** ** Instruction reducer *)

Section ReducerFacts.
Context {T : Type} `{Number T}.

Lemma reduce_step_snoc acc e i :
  reduce_step (acc ++ [e]) i = acc ++ reduce_step [e] i.
Proof.
  destruct i as [|d]; simpl.
  - by rewrite <- app_assoc.
  - rewrite last_snoc. destruct (py_eq (step e) (step d)).
    + rewrite length_app; simpl.
      replace (pred (length acc + 1)) with (length acc + 0)%nat by lia.
      by rewrite alter_app_r.
    + by rewrite <- app_assoc.
Qed.

Lemma fold_reduce_snoc clock : ∀ acc e,
  fold_left reduce_step clock (acc ++ [e]) = acc ++ run e clock.
Proof.
  induction clock as [|i clock IH]; intros acc e; simpl; [done|].
  rewrite reduce_step_snoc. destruct i as [|d]; simpl.
  - change (acc ++ [e; Dict (of_int 0) 1]) with (acc ++ [e] ++ [Dict (of_int 0) 1]).
    rewrite app_assoc, IH. by rewrite <- app_assoc.
  - destruct (py_eq (step e) (step d)); simpl.
    + apply IH.
    + change (acc ++ [e; Dict (step d) (reps d)])
        with (acc ++ [e] ++ [Dict (step d) (reps d)]).
      rewrite app_assoc, IH. by rewrite <- app_assoc.
Qed.

Lemma fold_reduce_run clock e :
  fold_left reduce_step clock [e] = run e clock.
Proof. apply (fold_reduce_snoc clock [] e). Qed.

(** The reducer unfolded on its first element. *)
Lemma reduce_cons i clock :
  reduce_clock_instructions (i :: clock) =
  run (match i with WAIT => Dict (of_int 0) 1 | Instr d => Dict (step d) (reps d) end) clock.
Proof.
  unfold reduce_clock_instructions. destruct i; simpl; apply fold_reduce_run.
Qed.

(** The list built before a point of the clock list is only ever touched
    at its last element. *)
Lemma reduce_app xs ys :
  reduce_clock_instructions (xs ++ ys) =
  fold_left reduce_step ys (reduce_clock_instructions xs).
Proof. unfold reduce_clock_instructions. by rewrite fold_left_app. Qed.

Lemma run_nonempty e clock : run e clock ≠ [].
Proof.
  revert e. induction clock as [|[|d] clock IH]; intros e; simpl; try done.
  destruct (py_eq (step e) (step d)); [apply IH | done].
Qed.

Lemma dict_eta (d : dict T) : Dict (step d) (reps d) = d.
Proof. by destruct d. Qed.

Lemma run_after_wait ys :
  starts_zero ys = false →
  run (Dict (of_int 0) 1) ys = Dict (of_int 0) 1 :: reduce_clock_instructions ys.
Proof.
  destruct ys as [|[|d] ys]; simpl; intros Hz.
  - done.
  - by rewrite reduce_cons.
  - rewrite Hz. by rewrite reduce_cons.
Qed.

(** C5, as amended.  A ['WAIT'] splits the reduction: the output is the
    reduction of what precedes it, then the element [{'step': 0, 'reps': 1}],
    then the reduction of what follows it.  Nothing before the ['WAIT'] is
    merged with it, and nothing after it is, unless the instruction right
    after it has a step that compares equal to 0. *)
Theorem wait_is_a_boundary xs ys :
  starts_zero ys = false →
  reduce_clock_instructions (xs ++ WAIT :: ys) =
  reduce_clock_instructions xs ++ Dict (of_int 0) 1 :: reduce_clock_instructions ys.
Proof.
  intros Hz. rewrite reduce_app.
  change (fold_left reduce_step (WAIT :: ys) (reduce_clock_instructions xs))
    with (fold_left reduce_step ys (reduce_clock_instructions xs ++ [Dict (of_int 0) 1])).
  by rewrite fold_reduce_snoc, run_after_wait.
Qed.

(** An instruction of step 0 right after a ['WAIT'] is added to the wait
    element. *)
Lemma wait_then_zero xs d ys :
  py_eq (of_int 0) (step d) = true →
  reduce_clock_instructions (xs ++ WAIT :: Instr d :: ys) =
  reduce_clock_instructions xs ++ run (Dict (of_int 0) (1 + reps d)) ys.
Proof.
  intros Hz. rewrite reduce_app.
  change (fold_left reduce_step (WAIT :: Instr d :: ys) (reduce_clock_instructions xs))
    with (fold_left reduce_step (Instr d :: ys)
            (reduce_clock_instructions xs ++ [Dict (of_int 0) 1])).
  rewrite fold_reduce_snoc. simpl. by rewrite Hz.
Qed.

Lemma distinct_adjacent_cons (e1 e2 : dict T) l :
  distinct_adjacent (e1 :: e2 :: l) =
  negb (py_eq (step e1) (step e2)) && distinct_adjacent (e2 :: l).
Proof. done. Qed.

(** Without ['WAIT'], the loop keeps the step of its last element until it
    appends, and appends only a step that compares different. *)
Lemma run_distinct clock : ∀ e,
  no_wait clock = true →
  ∃ e' rest, run e clock = e' :: rest ∧ step e' = step e
             ∧ distinct_adjacent (e' :: rest) = true.
Proof.
  induction clock as [|[|d] clock IH]; intros e Hw.
  - by exists e, [].
  - done.
  - change (no_wait clock = true) in Hw.
    cbn [run]. destruct (py_eq (step e) (step d)) eqn:Heq.
    + destruct (IH (Dict (step e) (reps e + reps d)) Hw) as (e' & rest & -> & Hs & Hd).
      by exists e', rest.
    + destruct (IH (Dict (step d) (reps d)) Hw) as (e' & rest & -> & Hs & Hd).
      exists e, (e' :: rest). split_and!; [done..|].
      rewrite distinct_adjacent_cons, Hd. cbn [step] in Hs. by rewrite Hs, Heq.
Qed.

(** A list without equal neighbours is left as it is. *)
Lemma run_fixed l : ∀ e,
  distinct_adjacent (e :: l) = true → run e (as_clock l) = e :: l.
Proof.
  induction l as [|d l IH]; intros e Hd; [done|].
  rewrite distinct_adjacent_cons in Hd. apply andb_prop in Hd as [Hne Hd].
  apply negb_true_iff in Hne.
  change (as_clock (d :: l)) with (Instr d :: as_clock l).
  cbn [run]. rewrite Hne, dict_eta. f_equal. by apply IH.
Qed.

Lemma reduce_fixed l :
  distinct_adjacent l = true →
  reduce_clock_instructions (as_clock l) = l.
Proof.
  destruct l as [|e l]; [done|]. intros Hd.
  change (as_clock (e :: l)) with (Instr e :: as_clock l).
  rewrite reduce_cons, dict_eta. by apply run_fixed.
Qed.

Lemma run_length clock : ∀ e, (length (run e clock) ≤ S (length clock))%nat.
Proof.
  induction clock as [|[|d] clock IH]; intros e; cbn [run length].
  - done.
  - specialize (IH (Dict (of_int 0) 1)). lia.
  - destruct (py_eq (step e) (step d)); cbn [length].
    + specialize (IH (Dict (step e) (reps e + reps d))). lia.
    + specialize (IH (Dict (step d) (reps d))). lia.
Qed.

(** A list with two equal neighbours gets shorter. *)
Lemma run_shorter l : ∀ e,
  distinct_adjacent (e :: l) = false →
  (length (run e (as_clock l)) ≤ length l)%nat.
Proof.
  induction l as [|d l IH]; intros e Hd; [done|].
  rewrite distinct_adjacent_cons in Hd.
  change (as_clock (d :: l)) with (Instr d :: as_clock l). cbn [run length].
  destruct (py_eq (step e) (step d)); cbn [negb andb length] in *.
  - pose proof (run_length (as_clock l) (Dict (step e) (reps e + reps d))) as Hl.
    unfold as_clock in Hl. rewrite length_fmap in Hl. exact Hl.
  - rewrite dict_eta. specialize (IH d Hd). lia.
Qed.

(** The lists the reducer leaves as they are, are those without equal
    neighbours; so reducing twice gives the same as reducing once exactly
    when the first output has no equal neighbours. *)
Lemma reduce_fixed_iff l :
  reduce_clock_instructions (as_clock l) = l ↔ distinct_adjacent l = true.
Proof.
  split; [|apply reduce_fixed].
  destruct l as [|e l]; [done|]. intros Hfix.
  destruct (distinct_adjacent (e :: l)) eqn:Hd; [done|].
  change (as_clock (e :: l)) with (Instr e :: as_clock l) in Hfix.
  rewrite reduce_cons, dict_eta in Hfix.
  apply run_shorter in Hd. rewrite Hfix in Hd. simpl in Hd. lia.
Qed.

(** C6, as amended.  On a clock list without ['WAIT'] the reducer is
    idempotent: reducing its own output gives that output again. *)
Theorem reduce_idempotent_without_wait clock :
  no_wait clock = true →
  reduce_clock_instructions (as_clock (reduce_clock_instructions clock)) =
  reduce_clock_instructions clock.
Proof.
  destruct clock as [|[|d] clock]; [done..|]. intros Hw.
  rewrite reduce_cons.
  destruct (run_distinct clock (Dict (step d) (reps d)) Hw) as (e' & rest & -> & _ & Hd).
  by apply reduce_fixed.
Qed.

End ReducerFacts.

(** The witness of [wait_is_a_boundary]: a wait between two instructions of
    period 1/10. *)
Lemma wait_is_a_boundary_witness :
  reduce_clock_instructions
    ([Instr (Dict (ratio 1 10) 3)] ++ WAIT :: [Instr (Dict (ratio 1 10) 2)]) =
  reduce_clock_instructions [Instr (Dict (ratio 1 10) 3)]
    ++ Dict (of_int 0) 1 :: reduce_clock_instructions [Instr (Dict (ratio 1 10) 2)].
Proof. apply wait_is_a_boundary. reflexivity. Defined.

(** C5, counterexample.  In [['WAIT', {'step': 0, 'reps': 2}]] the
    instruction is merged into the wait element: the output is the single
    element [{'step': 0, 'reps': 3}], and no element [{'step': 0, 'reps': 1}]
    is left. *)
Lemma wait_absorbs_zero_step :
  let out := reduce_clock_instructions (T:=Qc) [WAIT; Instr (Dict (of_int 0) 2)] in
  out = [Dict (of_int 0) 3] ∧ Dict (of_int 0) 1 ∉ out.
Proof.
  split; [reflexivity|].
  intros Hin. apply list_elem_of_singleton in Hin. discriminate Hin.
Qed.

(** The witness of [reduce_idempotent_without_wait]. *)
Lemma reduce_idempotent_without_wait_witness :
  reduce_clock_instructions (as_clock (reduce_clock_instructions
    [Instr (Dict (ratio 1 10) 1); Instr (Dict (ratio 1 10) 2); Instr (Dict (ratio 1 5) 2)])) =
  reduce_clock_instructions
    [Instr (Dict (ratio 1 10) 1); Instr (Dict (ratio 1 10) 2); Instr (Dict (ratio 1 5) 2)].
Proof. apply reduce_idempotent_without_wait. reflexivity. Defined.

(** C6, counterexample.  Two ['WAIT'] in a row are kept as two elements by
    the reducer, and merged into one when the output is reduced again. *)
Lemma reduce_twice_merges_waits :
  reduce_clock_instructions (T:=Qc) [WAIT; WAIT] = [Dict (of_int 0) 1; Dict (of_int 0) 1]
  ∧ reduce_clock_instructions (as_clock (reduce_clock_instructions (T:=Qc) [WAIT; WAIT]))
    = [Dict (of_int 0) 2]
  ∧ reduce_clock_instructions (as_clock (reduce_clock_instructions (T:=Qc) [WAIT; WAIT]))
    ≠ reduce_clock_instructions [WAIT; WAIT].
Proof. split_and!; [reflexivity..|discriminate]. Qed.

(** In exact arithmetic, steps that compare equal are equal. *)
Lemma exact_py_eq (x y : Qc) : py_eq x y = true ↔ x = y.
Proof. apply bool_decide_eq_true. Qed.

Lemma flatten_cons {T} (d : dict T) l :
  flatten (d :: l) = replicate (Z.to_nat (reps d)) (step d) ++ flatten l.
Proof. done. Qed.

Lemma duration_cons (d : dict Qc) l :
  duration (d :: l) = (step d * Qc_of_Z (reps d) + duration l)%Qc.
Proof. done. Qed.

Lemma run_preserves_timing (clock : list (instruction Qc)) : ∀ e,
  no_wait clock = true →
  0 ≤ reps e →
  Forall (λ d, 0 ≤ reps d) (dicts clock) →
  flatten (run e clock) = flatten (e :: dicts clock)
  ∧ duration (run e clock) = duration (e :: dicts clock).
Proof.
  induction clock as [|[|d] clock IH]; intros e Hw He Hall.
  - done.
  - done.
  - change (no_wait clock = true) in Hw.
    change (dicts (Instr d :: clock)) with (d :: dicts clock) in *.
    apply Forall_cons in Hall as [Hd Hall].
    cbn [run]. destruct (py_eq (step e) (step d)) eqn:Heq.
    + apply exact_py_eq in Heq.
      destruct (IH (Dict (step e) (reps e + reps d)) Hw) as [IHf IHd];
        [simpl; lia | done |].
      rewrite IHf, IHd. rewrite !flatten_cons, !duration_cons. cbn [step reps].
      split.
      * rewrite Z2Nat.inj_add, replicate_add, Heq by done.
        by rewrite <- app_assoc.
      * rewrite Z2Qc_inj_add, Heq. ring.
    + destruct (IH (Dict (step d) (reps d)) Hw) as [IHf IHd]; [done..|].
      rewrite flatten_cons, duration_cons, IHf, IHd.
      by rewrite !flatten_cons, !duration_cons.
Qed.

(** C10.  On a clock list without ['WAIT'] (and with no negative [reps]),
    writing out each period [reps] times gives the same list of periods for
    the reduced list as for the input, and the total duration is the same. *)
Theorem reduce_preserves_timing (clock : list (instruction Qc)) :
  no_wait clock = true →
  Forall (λ d, 0 ≤ reps d) (dicts clock) →
  flatten (reduce_clock_instructions clock) = flatten (dicts clock)
  ∧ duration (reduce_clock_instructions clock) = duration (dicts clock).
Proof.
  destruct clock as [|[|d] clock]; [done..|]. intros Hw Hall.
  change (dicts (Instr d :: clock)) with (d :: dicts clock) in *.
  rewrite reduce_cons.
  destruct (run_preserves_timing clock (Dict (step d) (reps d))) as [Hf Hd].
  - done.
  - by apply Forall_cons in Hall as [? _].
  - by apply Forall_cons in Hall as [_ ?].
  - by rewrite Hf, Hd, dict_eta.
Qed.

(** The witness of [reduce_preserves_timing]: three instructions, the first
    two of equal period. *)
Lemma reduce_preserves_timing_witness :
  let clock := [Instr (Dict (ratio 1 10) 1); Instr (Dict (ratio 1 10) 2);
                Instr (Dict (ratio 1 5) 2)] in
  flatten (reduce_clock_instructions clock) = flatten (dicts clock)
  ∧ duration (reduce_clock_instructions clock) = duration (dicts clock).
Proof.
  apply reduce_preserves_timing; [reflexivity|].
  repeat constructor; simpl; lia.
Defined.

(** ** Clock/toggle encoder *)

(** C1, as amended.  For the reduced instructions
    [[{'step': 0.1, 'reps': 3}, {'step': 0.2, 'reps': 2}]], a clock limit of
    10 and a digital output whose raw output starts with 0, the encoder
    returns [[(0, 0), (0, 1), (1, 1)]]: the first instruction gives the tick
    [(0, 0)] and, with two repetitions left, one toggle.  This holds in exact
    arithmetic and in binary64. *)
Theorem convert_example raw_output :
  convert_to_clocks_and_toggles
    [Dict (ratio 1 10) 3; Dict (ratio 1 5) 2] (DigitalOut (0 :: raw_output)) (of_int 10)
  = Ok [(0, 0); (0, 1); (1, 1)]
  ∧ convert_to_clocks_and_toggles
      [Dict float_0_1 3; Dict float_0_2 2] (DigitalOut (0 :: raw_output)) (of_int 10)
    = Ok [(0, 0); (0, 1); (1, 1)].
Proof. split; vm_compute; reflexivity. Qed.

(** C1, counterexample.  The second tick of that example has one toggle,
    not two. *)
Lemma convert_example_not_two_toggles :
  convert_to_clocks_and_toggles
    [Dict (ratio 1 10) 3; Dict (ratio 1 5) 2] (DigitalOut [0]) (of_int 10)
  ≠ Ok [(0, 0); (0, 2); (1, 1)]
  ∧ convert_to_clocks_and_toggles
      [Dict float_0_1 3; Dict float_0_2 2] (DigitalOut [0]) (of_int 10)
    ≠ Ok [(0, 0); (0, 2); (1, 1)].
Proof. split; vm_compute; discriminate. Qed.

(** C8, as amended.  On a clock list that is not empty, an output that is
    neither a [DigitalOut] nor an [AnalogOut] makes the encoder raise
    [LabscriptError], whatever the instructions and the clock limit are. *)
Theorem convert_unsupported_output {T} `{Number T} (tick : dict T) clock class_name clock_limit :
  convert_to_clocks_and_toggles (tick :: clock) (OtherOutput class_name) clock_limit
  = Raise (LabscriptError
      ("Conversion to clocks and toggles not supported for output type '"
         +:+ class_name +:+ "'.")).
Proof. reflexivity. Qed.

(** C8, counterexample.  On the empty clock list the loop body never runs:
    the encoder returns the empty list for an output of any class. *)
Lemma convert_empty_unsupported_output :
  convert_to_clocks_and_toggles (T:=Qc) [] (OtherOutput "DDS") (of_int 10) = Ok [].
Proof. reflexivity. Qed.

(** ** Clock expander *)

Section ExpanderFacts.
Context {T : Type} `{Number T}.

(** The toggle loop, started on a list of times that is not empty, returns
    that list extended by times none of which compares greater than the
    stop time. *)
Lemma toggle_loop_bounded k n_clocks (clock_limit stop_time : T) : ∀ times,
  times ≠ [] →
  ∃ new, toggle_loop k n_clocks clock_limit stop_time times = Ok (times ++ new)
         ∧ Forall (λ t, py_gt t stop_time = false) new.
Proof.
  induction k as [|k IH]; intros times Hne; cbn [toggle_loop].
  - exists []. by rewrite app_nil_r.
  - destruct (last times) as [t|] eqn:Hlast.
    + cbn zeta. destruct (py_gt _ stop_time) eqn:Hgt.
      * exists []. by rewrite app_nil_r.
      * destruct (IH (times ++ [py_add t (py_div (of_int n_clocks) clock_limit)]))
          as (new & -> & Hnew); [by destruct times|].
        eexists (_ :: new). rewrite <- app_assoc. split; [done|].
        by constructor.
    + apply last_None in Hlast. done.
Qed.

Lemma expand_loop_bounded clock (clock_limit stop_time : T) : ∀ i times,
  times ≠ [] →
  ∃ new, expand_loop (S i) clock clock_limit stop_time times = Ok (times ++ new)
         ∧ Forall (λ t, py_gt t stop_time = false) new.
Proof.
  induction clock as [|[n_clocks toggles] clock IH]; intros i times Hne; cbn [expand_loop].
  - exists []. by rewrite app_nil_r.
  - rewrite bool_decide_eq_false_2 by done.
    destruct (toggle_loop_bounded (Z.to_nat toggles) n_clocks clock_limit stop_time times Hne)
      as (new1 & -> & Hnew1).
    destruct (IH (S i) (times ++ new1)) as (new2 & Hrun & Hnew2); [by destruct times|].
    exists (new1 ++ new2). split.
    + rewrite app_assoc. exact Hrun.
    + by apply Forall_app.
Qed.

(** For every kind of number: the expander returns, its first time is that
    of the first tick, and no later time compares greater than the stop
    time. *)
Lemma expand_clock_not_beyond clock (clock_limit stop_time : T) :
  ∃ times, expand_clock clock clock_limit stop_time = Ok times
           ∧ head times = (λ tick, py_div (of_int tick.1) clock_limit) <$> head clock
           ∧ Forall (λ t, py_gt t stop_time = false) (tail times).
Proof.
  unfold expand_clock. destruct clock as [|[n_clocks toggles] clock]; cbn [expand_loop].
  - by exists [].
  - rewrite bool_decide_eq_true_2 by done.
    destruct (expand_loop_bounded clock clock_limit stop_time 0
                ([] ++ [py_div (of_int n_clocks) clock_limit])) as (new & Hrun & Hnew);
      [done|].
    eexists. split; [exact Hrun|]. split; [done|exact Hnew].
Qed.

End ExpanderFacts.

(** C7, as amended.  The expander always returns; the first time of its
    list is that of the first tick, appended without a comparison, and every
    later time is at most the stop time. *)
Theorem expand_clock_bounded clock (clock_limit stop_time : Qc) :
  ∃ times, expand_clock clock clock_limit stop_time = Ok times
           ∧ head times = (λ tick, py_div (of_int tick.1) clock_limit) <$> head clock
           ∧ Forall (λ t, (t ≤ stop_time)%Qc) (tail times).
Proof.
  destruct (expand_clock_not_beyond clock clock_limit stop_time)
    as (times & Hrun & Hhead & Hlater).
  exists times. split_and!; [done..|].
  eapply Forall_impl; [exact Hlater|]. intros t Hgt.
  apply bool_decide_eq_false in Hgt. by apply Qcnot_lt_le.
Qed.

(** C7, counterexample.  With a first tick of 20 clocks, a clock limit of
    10 and a stop time of 1, the list returned is the single time 2, in
    exact arithmetic and in binary64. *)
Lemma expand_clock_first_tick_beyond_stop :
  (∃ t, expand_clock [(20, 0)] (of_int 10) (of_int 1) = Ok [t]
        ∧ (of_int 1 < t)%Qc ∧ ¬ (t ≤ of_int 1)%Qc)
  ∧ expand_clock [(20, 0)] 10%float 1%float = Ok [2%float]
  ∧ PrimFloat.leb 2%float 1%float = false.
Proof.
  split; [|by vm_compute].
  eexists. split; [reflexivity|]. split; [reflexivity|].
  apply Qclt_not_le. reflexivity.
Qed.

(** ** Connection strings *)

Lemma split_nonempty s : split " " s ≠ [].
Proof.
  destruct s as [|c s]; simpl; [done|].
  destruct (Ascii.eqb c " "); [done|]. by destruct (split " " s).
Qed.

Lemma split_cons_inv s : ∀ a rest,
  split " " s = a :: rest →
  space_free a = true
  ∧ ((rest = [] ∧ s = a) ∨ (∃ s', s = a +:+ " " +:+ s' ∧ split " " s' = rest)).
Proof.
  induction s as [|c s IH]; intros a rest; simpl.
  - intros [= <- <-]. split; [done|]. by left.
  - destruct (Ascii.eqb c " ") eqn:Hc.
    + apply Ascii.eqb_eq in Hc as ->. intros [= <- <-].
      split; [done|]. right. by exists s.
    + destruct (split " " s) as [|w ws] eqn:Hs; [by apply split_nonempty in Hs|].
      intros [= <- <-]. destruct (IH w ws eq_refl) as [Hw Hrest].
      split; [simpl; by rewrite Hc, Hw|].
      destruct Hrest as [[-> ->]|(s' & -> & Hs')]; [by left|].
      right. by exists s'.
Qed.

Lemma split_app a b :
  space_free a = true → split " " (a +:+ " " +:+ b) = a :: split " " b.
Proof.
  induction a as [|c a IH]; simpl; [done|].
  intros [Hc Ha]%andb_prop. apply negb_true_iff in Hc. rewrite Hc.
  by rewrite IH.
Qed.

Lemma split_space_free s : space_free s = true → split " " s = [s].
Proof.
  induction s as [|c s IH]; simpl; [done|].
  intros [Hc Hs]%andb_prop. apply negb_true_iff in Hc. rewrite Hc.
  by rewrite IH.
Qed.

(** A string splits into exactly two tokens when it is two tokens without
    spaces, joined by one space. *)
Lemma split_two s a b :
  split " " s = [a; b] ↔
  s = a +:+ " " +:+ b ∧ space_free a = true ∧ space_free b = true.
Proof.
  split.
  - intros Hs. apply split_cons_inv in Hs as [Ha [[? _]|(s' & -> & Hs')]]; [done|].
    apply split_cons_inv in Hs' as [Hb [[_ ->]|(s'' & _ & Hs'')]].
    + done.
    + by apply split_nonempty in Hs''.
  - intros (-> & Ha & Hb). by rewrite split_app, split_space_free.
Qed.

Lemma int_of_string_raises s e : int_of_string s = Raise e → e = ValueError.
Proof.
  unfold int_of_string.
  destruct (match rstrip (lstrip s) with
            | String "-" b => (-1, b)
            | String "+" b => (1, b)
            | _ => (1, rstrip (lstrip s))
            end) as [sign body].
  destruct body; [congruence|]. destruct (digits_value 0 _); congruence.
Qed.

Lemma check_connection_raises c e : check_connection c = Raise e → e = ValueError.
Proof.
  unfold check_connection.
  destruct (split " " c) as [|prefix [|channel [|]]]; try congruence.
  destruct (negb _ && negb _); [congruence|].
  destruct (int_of_string channel) eqn:Hint; simpl; [done|].
  intros [= <-]. by apply int_of_string_raises in Hint.
Qed.

Lemma check_connection_ok c :
  is_ok (check_connection c) = true ↔ well_formed_connection c.
Proof.
  unfold check_connection, well_formed_connection. split.
  - destruct (split " " c) as [|kind [|channel [|]]] eqn:Hs; try done.
    apply split_two in Hs as (-> & Hp & Hc).
    destruct (String.eqb_spec kind "analog") as [Ha|Ha];
      destruct (String.eqb_spec kind "digital") as [Hd|Hd]; simpl; try done;
      destruct (int_of_string channel) eqn:Hint; try done; intros _;
      exists kind, channel; rewrite Hint; auto.
  - intros (kind & channel & -> & Hp & Hc & Hint).
    assert (Hsf : space_free kind = true) by (by destruct Hp as [-> | ->]).
    rewrite (proj2 (split_two _ kind channel)) by done.
    destruct (int_of_string channel); [|done].
    by destruct Hp as [-> | ->].
Qed.

(** C9, as amended.  On a device to which no output is attached yet,
    [add_device] returns (with the output as the single child and as
    [self.output]) exactly when the connection string is [analog] or
    [digital], one space, and a token that [int] accepts; every other
    string makes it raise [LabscriptError]. *)
Theorem add_device_checks_connection self device :
  child_devices self = [] →
  match add_device self device with
  | Ok self' =>
      well_formed_connection (connection device)
      ∧ self' = OID (name self) [device] (Some device)
  | Raise e =>
      ¬ well_formed_connection (connection device) ∧ ∃ msg, e = LabscriptError msg
  end.
Proof.
  intros Hempty. unfold add_device. rewrite Hempty.
  destruct (check_connection (connection device)) as [r|e] eqn:Hcheck.
  - split; [|done]. apply check_connection_ok. by rewrite Hcheck.
  - apply check_connection_raises in Hcheck as Hv. subst e. split; [|by eexists].
    intros Hwf. apply check_connection_ok in Hwf. by rewrite Hcheck in Hwf.
Qed.

(** The witness of [add_device_checks_connection]: ['digital 3'] on a fresh
    device. *)
Lemma add_device_checks_connection_witness :
  match add_device (OID "fpga_output_device0" [] None)
          (Device "digi0" "digital output" "digital 3") with
  | Ok self' =>
      well_formed_connection "digital 3"
      ∧ self' = OID "fpga_output_device0"
                  [Device "digi0" "digital output" "digital 3"]
                  (Some (Device "digi0" "digital output" "digital 3"))
  | Raise e => ¬ well_formed_connection "digital 3" ∧ ∃ msg, e = LabscriptError msg
  end.
Proof.
  apply (add_device_checks_connection (OID "fpga_output_device0" [] None)
           (Device "digi0" "digital output" "digital 3")).
  reflexivity.
Defined.

(** The strings of the examples: accepted and rejected on a fresh device. *)
Lemma add_device_examples :
  let attach c := is_ok (add_device (OID "fpga_output_device0" [] None)
                           (Device "out" "output" c)) in
  attach "digital 3" = true ∧ attach "analog 0" = true ∧ attach "digital -1" = true
  ∧ attach "analogue 0" = false ∧ attach "digital" = false
  ∧ attach "digital x" = false ∧ attach "digital 1 2" = false
  ∧ attach "digital  3" = false.
Proof. repeat split. Qed.

(** C9, counterexample.  A device that already has an output rejects
    ['digital 3'], although the string passes the check. *)
Lemma add_device_occupied :
  let self := OID "fpga_output_device0"
                [Device "analog0" "analog output" "analog 0"]
                (Some (Device "analog0" "analog output" "analog 0")) in
  is_ok (add_device self (Device "digi0" "digital output" "digital 3")) = false
  ∧ check_connection "digital 3" = Ok ("digital", 3).
Proof. split; reflexivity. Qed.

(** ** BLACS worker *)

Section WorkerFacts.
Context {T : Type} `{Number T}.
Variable interface : list (call T) → call T → bool.

(** The body of the clock loop as a function of the worker's state. *)
Lemma program_clock_unfold fresh_program group i output clock final_state w :
  program_clock interface fresh_program group i output clock final_state w =
  let c := send_pseudoclock 0 i clock in
  let send := fresh_program || changed tick_eqb clock (cache_clocks w !! output) in
  let w1 := if send
            then Worker (<[output := clock]> (cache_clocks w)) (cache_data w)
                   (interface_calls w ++ [c])
            else w in
  if send && negb (interface (interface_calls w) c) then (Raise TransportError, w1)
  else match group_get (analog_data group) output with
       | None =>
           match clock with
           | first :: _ =>
               (Ok (<[output := digital_state (first.2 + sum_toggles clock `mod` 2)]>
                      final_state), w1)
           | [] => (Raise IndexError, w1)
           end
       | Some _ => (Ok final_state, w1)
       end.
Proof.
  unfold program_clock, mbind, M_bind, get_cache_clocks, set_cache_clocks,
    interface_call, raise, mret, M_ret.
  cbn beta iota zeta.
  destruct (fresh_program || changed tick_eqb clock (cache_clocks w !! output));
    cbn [cache_clocks cache_data interface_calls andb negb].
  - destruct (interface (interface_calls w) (send_pseudoclock 0 i clock));
      cbn [negb]; [|done].
    destruct (group_get (analog_data group) output); [done|]. by destruct clock.
  - destruct (group_get (analog_data group) output); [done|]. by destruct clock.
Qed.

(** The body of the data loop as a function of the worker's state. *)
Lemma program_data_unfold fresh_program group i output data final_state w :
  program_data interface fresh_program group i output data final_state w =
  let c := send_analog_data 0 i (limits_of group output).1 (limits_of group output).2 data in
  if fresh_program || changed py_eq data (cache_data w !! output) then
    match last data with
    | None => (Raise IndexError, w)
    | Some x =>
        let w1 := Worker (cache_clocks w) (<[output := data]> (cache_data w))
                    (interface_calls w ++ [c]) in
        if interface (interface_calls w) c
        then (Ok (<[output := analog_sample x]> final_state), w1)
        else (Raise TransportError, w1)
    end
  else (Ok final_state, w).
Proof.
  unfold program_data, mbind, M_bind, get_cache_data, set_cache_data,
    interface_call, raise, mret, M_ret.
  cbn beta iota zeta.
  destruct (fresh_program || changed py_eq data (cache_data w !! output)); [|done].
  destruct (last data); [|done].
  destruct (limits_of group output) as [range_min range_max].
  cbn [cache_clocks cache_data interface_calls fst snd].
  by destruct (interface (interface_calls w) _).
Qed.

Lemma for_enumerate_cons {A}
    (body : nat → string → list A → gmap string (value T) → M T (gmap string (value T)))
    i output array datasets final_state w :
  for_enumerate body i ((output, array) :: datasets) final_state w =
  match body i output array final_state w with
  | (Ok final_state', w') => for_enumerate body (S i) datasets final_state' w'
  | (Raise e, w') => (Raise e, w')
  end.
Proof. done. Qed.

(** *** A transmission that fails *)

Lemma clock_loop_failure fresh_program group datasets : ∀ sent i final_state w w',
  clocks group = sent ++ datasets →
  length sent = i →
  for_enumerate (program_clock interface fresh_program group) i datasets final_state w
    = (Raise TransportError, w') →
  ∃ before c, interface_calls w' = before ++ [c]
              ∧ interface before c = false
              ∧ cache_holds group w' c.
Proof.
  induction datasets as [|[output clock] datasets IH];
    intros sent i final_state w w' Hgroup Hlen; [done|].
  assert (Hgroup' : clocks group = (sent ++ [(output, clock)]) ++ datasets)
    by (by rewrite <- app_assoc).
  assert (Hlen' : length (sent ++ [(output, clock)]) = S i)
    by (rewrite length_app; simpl; lia).
  rewrite for_enumerate_cons, program_clock_unfold. cbn zeta.
  destruct (fresh_program || changed tick_eqb clock (cache_clocks w !! output)) eqn:Hsend;
    cbn [andb].
  - destruct (interface (interface_calls w) (send_pseudoclock 0 i clock)) eqn:Hcall;
      cbn [negb].
    + destruct (group_get (analog_data group) output); [|destruct clock; [done|]];
        apply (IH _ _ _ _ _ Hgroup' Hlen').
    + intros [= <-]. exists (interface_calls w), (send_pseudoclock 0 i clock).
      split_and!; [done..|]. exists output. split.
      * rewrite Hgroup. by apply list_lookup_middle.
      * apply lookup_insert_eq.
  - destruct (group_get (analog_data group) output); [|destruct clock; [done|]];
      apply (IH _ _ _ _ _ Hgroup' Hlen').
Qed.

Lemma data_loop_failure fresh_program group datasets : ∀ sent i final_state w w',
  analog_data group = sent ++ datasets →
  length sent = i →
  for_enumerate (program_data interface fresh_program group) i datasets final_state w
    = (Raise TransportError, w') →
  ∃ before c, interface_calls w' = before ++ [c]
              ∧ interface before c = false
              ∧ cache_holds group w' c.
Proof.
  induction datasets as [|[output data] datasets IH];
    intros sent i final_state w w' Hgroup Hlen; [done|].
  rewrite for_enumerate_cons, program_data_unfold. cbn zeta.
  destruct (fresh_program || changed py_eq data (cache_data w !! output)) eqn:Hsend.
  - destruct (last data); [|done].
    destruct (interface (interface_calls w) _) eqn:Hcall.
    + apply (IH (sent ++ [(output, data)]));
        rewrite <- ?app_assoc, ?length_app; simpl; try done; lia.
    + intros [= <-]. eexists (interface_calls w), _.
      split_and!; [done..|]. exists output. split.
      * rewrite Hgroup. by apply list_lookup_middle.
      * apply lookup_insert_eq.
  - apply (IH (sent ++ [(output, data)]));
      rewrite <- ?app_assoc, ?length_app; simpl; try done; lia.
Qed.


(** *** Runs that return *)

Lemma zip_diagonal {A} (eqb : A → A → bool) :
  (∀ x, eqb x x = true) →
  ∀ a, existsb (λ p, negb (eqb p.1 p.2)) (zip a a) = false.
Proof.
  intros Hrefl. induction a as [|x a IH]; [done|].
  cbn [zip zip_with existsb fst snd]. by rewrite Hrefl, IH.
Qed.

(** An array does not differ from itself when every element compares
    equal to itself. *)
Lemma array_ne_refl {A} (eqb : A → A → bool) :
  (∀ x, eqb x x = true) → ∀ a, array_ne eqb a a = false.
Proof.
  intros Hrefl a. destruct a as [|x [|y a]].
  - done.
  - cbn. by rewrite Hrefl.
  - unfold array_ne. rewrite Nat.eqb_refl. by apply zip_diagonal.
Qed.

Lemma tick_eqb_refl t : tick_eqb t t = true.
Proof. unfold tick_eqb. by rewrite !Z.eqb_refl. Qed.

Lemma clock_calls_ext fresh_program cache1 cache2 datasets : ∀ i,
  (∀ output, output ∈ datasets.*1 → cache1 !! output = cache2 !! output) →
  clock_calls (T:=T) fresh_program cache1 i datasets
  = clock_calls fresh_program cache2 i datasets.
Proof.
  induction datasets as [|[output clock] datasets IH]; intros i Hext; [done|].
  simpl. rewrite (Hext output) by (simpl; left).
  f_equal. apply IH. intros o Ho. apply Hext. simpl. by right.
Qed.

Lemma data_calls_ext fresh_program group cache1 cache2 datasets : ∀ i,
  (∀ output, output ∈ datasets.*1 → cache1 !! output = cache2 !! output) →
  data_calls fresh_program group cache1 i datasets
  = data_calls fresh_program group cache2 i datasets.
Proof.
  induction datasets as [|[output data] datasets IH]; intros i Hext; [done|].
  simpl. rewrite (Hext output) by (simpl; left).
  f_equal. apply IH. intros o Ho. apply Hext. simpl. by right.
Qed.

(** What one pass of the clock loop body that returns has done. *)
Lemma program_clock_ok fresh_program group i output clock final_state w final_state1 w1 :
  program_clock interface fresh_program group i output clock final_state w
    = (Ok final_state1, w1) →
  let new_calls := if fresh_program || changed tick_eqb clock (cache_clocks w !! output)
                   then [send_pseudoclock 0 i clock] else [] in
  interface_calls w1 = interface_calls w ++ new_calls
  ∧ cache_data w1 = cache_data w
  ∧ (∀ o, o ≠ output → cache_clocks w1 !! o = cache_clocks w !! o)
  ∧ changed tick_eqb clock (cache_clocks w1 !! output) = false
  ∧ (group_get (analog_data group) output = None → clock ≠ []).
Proof.
  rewrite program_clock_unfold. cbn zeta.
  destruct (fresh_program || changed tick_eqb clock (cache_clocks w !! output)) eqn:Hsend;
    cbn [andb].
  - destruct (interface _ _); cbn [negb]; [|done].
    assert (Hset : changed tick_eqb clock (<[output:=clock]> (cache_clocks w) !! output)
                   = false).
    { rewrite lookup_insert_eq. cbn [changed].
      apply (array_ne_refl _ tick_eqb_refl). }
    destruct (group_get (analog_data group) output); [|destruct clock; [done|]];
      intros [= <- <-]; cbn [interface_calls cache_data cache_clocks];
      (split_and!; [done|done| |done|done]);
      intros o Ho; by rewrite lookup_insert_ne.
  - apply orb_false_elim in Hsend as [_ Hsame].
    destruct (group_get (analog_data group) output); [|destruct clock; [done|]];
      intros [= <- <-]; by rewrite app_nil_r.
Qed.

Lemma clock_loop_ok fresh_program group datasets : ∀ i final_state w final_state' w',
  NoDup (datasets.*1) →
  for_enumerate (program_clock interface fresh_program group) i datasets final_state w
    = (Ok final_state', w') →
  interface_calls w'
    = interface_calls w ++ clock_calls fresh_program (cache_clocks w) i datasets
  ∧ cache_data w' = cache_data w
  ∧ (∀ o, o ∉ datasets.*1 → cache_clocks w' !! o = cache_clocks w !! o)
  ∧ Forall (λ p, changed tick_eqb p.2 (cache_clocks w' !! p.1) = false
                 ∧ (group_get (analog_data group) p.1 = None → p.2 ≠ [])) datasets.
Proof.
  induction datasets as [|[output clock] datasets IH];
    intros i final_state w final_state' w' Hnd.
  - intros [= <- <-]. by rewrite app_nil_r.
  - rewrite fmap_cons in Hnd. apply NoDup_cons in Hnd as [Hout Hnd]. cbn [fst] in Hout.
    rewrite for_enumerate_cons.
    destruct (program_clock interface fresh_program group i output clock final_state w)
      as [[final_state1|e] w1] eqn:Hbody; [|done].
    apply program_clock_ok in Hbody as (Hcalls1 & Hdata1 & Hother1 & Hset1 & Hne1).
    intros Hrest. apply IH in Hrest as (Hcalls & Hdata & Hother & Hall); [|done].
    split_and!.
    + rewrite Hcalls, Hcalls1. cbn [clock_calls]. rewrite <- app_assoc. do 2 f_equal.
      apply clock_calls_ext. intros o Ho. apply Hother1. by intros ->.
    + congruence.
    + intros o Ho. rewrite fmap_cons in Ho. apply not_elem_of_cons in Ho as [Ho1 Ho2].
      rewrite Hother by done. by apply Hother1.
    + constructor; [|done]. cbn [fst snd]. split; [|done].
      by rewrite Hother.
Qed.

(** What one pass of the clock loop body has done, whether it returns or
    raises. *)
Lemma program_clock_any fresh_program group i output clock final_state w r w1 :
  program_clock interface fresh_program group i output clock final_state w = (r, w1) →
  let new_calls := if fresh_program || changed tick_eqb clock (cache_clocks w !! output)
                   then [send_pseudoclock 0 i clock] else [] in
  interface_calls w1 = interface_calls w ++ new_calls
  ∧ cache_data w1 = cache_data w
  ∧ (∀ o, o ≠ output → cache_clocks w1 !! o = cache_clocks w !! o).
Proof.
  rewrite program_clock_unfold. cbn zeta.
  destruct (fresh_program || changed tick_eqb clock (cache_clocks w !! output));
    cbn [andb].
  - destruct (interface _ _); cbn [negb];
      [destruct (group_get (analog_data group) output); [|destruct clock]|];
      intros [= <- <-]; cbn [interface_calls cache_data cache_clocks];
      (split_and!; [done|done|]); intros o Ho; by rewrite lookup_insert_ne.
  - destruct (group_get (analog_data group) output); [|destruct clock];
      intros [= <- <-]; by rewrite app_nil_r.
Qed.

(** In every run of the clock loop the calls made are an initial part of
    those the rule prescribes. *)
Lemma clock_loop_prefix fresh_program group datasets : ∀ i final_state w r w',
  NoDup (datasets.*1) →
  for_enumerate (program_clock interface fresh_program group) i datasets final_state w
    = (r, w') →
  ∃ made, interface_calls w' = interface_calls w ++ made
          ∧ made `prefix_of` clock_calls fresh_program (cache_clocks w) i datasets.
Proof.
  induction datasets as [|[output clock] datasets IH]; intros i final_state w r w' Hnd.
  - intros [= <- <-]. exists []. by rewrite app_nil_r.
  - rewrite fmap_cons in Hnd. apply NoDup_cons in Hnd as [Hout Hnd]. cbn [fst] in Hout.
    rewrite for_enumerate_cons.
    destruct (program_clock interface fresh_program group i output clock final_state w)
      as [r1 w1] eqn:Hbody.
    apply program_clock_any in Hbody as (Hcalls1 & _ & Hother1).
    cbn [clock_calls]. destruct r1 as [final_state1|e].
    + intros Hrest. apply IH in Hrest as (made & Hcalls & Hprefix); [|done].
      eexists (_ ++ made). rewrite Hcalls, Hcalls1, <- app_assoc. split; [done|].
      apply prefix_app.
      rewrite (clock_calls_ext _ (cache_clocks w) (cache_clocks w1)); [done|].
      intros o Ho. symmetry. apply Hother1. by intros ->.
    + intros [= <- <-]. eexists. split; [exact Hcalls1|]. by apply prefix_app_r.
Qed.

(** A second pass over datasets the cache is up to date with makes no call
    and leaves the worker as it is. *)
Lemma clock_loop_rerun group datasets : ∀ i final_state w,
  Forall (λ p, changed tick_eqb p.2 (cache_clocks w !! p.1) = false
               ∧ (group_get (analog_data group) p.1 = None → p.2 ≠ [])) datasets →
  ∃ final_state',
    for_enumerate (program_clock interface false group) i datasets final_state w
    = (Ok final_state', w).
Proof.
  induction datasets as [|[output clock] datasets IH]; intros i final_state w Hall.
  - by eexists.
  - apply Forall_cons in Hall as [[Hsame Hne] Hall]. cbn [fst snd] in *.
    rewrite for_enumerate_cons, program_clock_unfold. cbn zeta.
    rewrite Hsame. cbn [orb andb].
    destruct (group_get (analog_data group) output).
    + by apply IH.
    + destruct clock; [by destruct Hne|]. by apply IH.
Qed.

Section Reflexive.
(** Where every sample compares equal to itself, as in exact arithmetic. *)
Hypothesis py_eq_refl : ∀ x : T, py_eq x x = true.

Lemma program_data_ok fresh_program group i output data final_state w final_state1 w1 :
  program_data interface fresh_program group i output data final_state w
    = (Ok final_state1, w1) →
  let new_calls := if fresh_program || changed py_eq data (cache_data w !! output)
                   then [send_analog_data 0 i (limits_of group output).1
                           (limits_of group output).2 data]
                   else [] in
  interface_calls w1 = interface_calls w ++ new_calls
  ∧ cache_clocks w1 = cache_clocks w
  ∧ (∀ o, o ≠ output → cache_data w1 !! o = cache_data w !! o)
  ∧ changed py_eq data (cache_data w1 !! output) = false.
Proof.
  rewrite program_data_unfold. cbn zeta.
  destruct (fresh_program || changed py_eq data (cache_data w !! output)) eqn:Hsend.
  - destruct (last data); [|done]. destruct (interface _ _); [|done].
    intros [= <- <-]. cbn [interface_calls cache_data cache_clocks].
    split_and!; [done|done| |].
    + intros o Ho. by rewrite lookup_insert_ne.
    + rewrite lookup_insert_eq. cbn [changed]. apply (array_ne_refl _ py_eq_refl).
  - apply orb_false_elim in Hsend as [_ Hsame].
    intros [= <- <-]. by rewrite app_nil_r.
Qed.

Lemma data_loop_ok fresh_program group datasets : ∀ i final_state w final_state' w',
  NoDup (datasets.*1) →
  for_enumerate (program_data interface fresh_program group) i datasets final_state w
    = (Ok final_state', w') →
  interface_calls w'
    = interface_calls w ++ data_calls fresh_program group (cache_data w) i datasets
  ∧ cache_clocks w' = cache_clocks w
  ∧ (∀ o, o ∉ datasets.*1 → cache_data w' !! o = cache_data w !! o)
  ∧ Forall (λ p, changed py_eq p.2 (cache_data w' !! p.1) = false) datasets.
Proof.
  induction datasets as [|[output data] datasets IH];
    intros i final_state w final_state' w' Hnd.
  - intros [= <- <-]. by rewrite app_nil_r.
  - rewrite fmap_cons in Hnd. apply NoDup_cons in Hnd as [Hout Hnd]. cbn [fst] in Hout.
    rewrite for_enumerate_cons.
    destruct (program_data interface fresh_program group i output data final_state w)
      as [[final_state1|e] w1] eqn:Hbody; [|done].
    apply program_data_ok in Hbody as (Hcalls1 & Hclocks1 & Hother1 & Hset1).
    intros Hrest. apply IH in Hrest as (Hcalls & Hclocks & Hother & Hall); [|done].
    split_and!.
    + rewrite Hcalls, Hcalls1. cbn [data_calls]. rewrite <- app_assoc. do 2 f_equal.
      apply data_calls_ext. intros o Ho. apply Hother1. by intros ->.
    + congruence.
    + intros o Ho. rewrite fmap_cons in Ho. apply not_elem_of_cons in Ho as [Ho1 Ho2].
      rewrite Hother by done. by apply Hother1.
    + constructor; [|done]. cbn [fst snd]. by rewrite Hother.
Qed.

Lemma data_loop_rerun group datasets : ∀ i final_state w,
  Forall (λ p, changed py_eq p.2 (cache_data w !! p.1) = false) datasets →
  for_enumerate (program_data interface false group) i datasets final_state w
  = (Ok final_state, w).
Proof.
  induction datasets as [|[output data] datasets IH]; intros i final_state w Hall.
  - done.
  - apply Forall_cons in Hall as [Hsame Hall]. cbn [fst snd] in *.
    rewrite for_enumerate_cons, program_data_unfold. cbn zeta.
    rewrite Hsame. cbn [orb]. by apply IH.
Qed.

Lemma data_loop_prefix fresh_program group datasets : ∀ i final_state w r w',
  NoDup (datasets.*1) →
  for_enumerate (program_data interface fresh_program group) i datasets final_state w
    = (r, w') →
  ∃ made, interface_calls w' = interface_calls w ++ made
          ∧ made `prefix_of` data_calls fresh_program group (cache_data w) i datasets.
Proof.
  induction datasets as [|[output data] datasets IH]; intros i final_state w r w' Hnd.
  - intros [= <- <-]. exists []. by rewrite app_nil_r.
  - rewrite fmap_cons in Hnd. apply NoDup_cons in Hnd as [Hout Hnd]. cbn [fst] in Hout.
    rewrite for_enumerate_cons.
    destruct (program_data interface fresh_program group i output data final_state w)
      as [[final_state1|e] w1] eqn:Hbody; cbn [data_calls].
    + apply program_data_ok in Hbody as (Hcalls1 & _ & Hother1 & _).
      intros Hrest. apply IH in Hrest as (made & Hcalls & Hprefix); [|done].
      eexists (_ ++ made). rewrite Hcalls, Hcalls1, <- app_assoc. split; [done|].
      apply prefix_app.
      rewrite (data_calls_ext _ _ (cache_data w) (cache_data w1)); [done|].
      intros o Ho. symmetry. apply Hother1. by intros ->.
    + intros [= <- <-]. revert Hbody. rewrite program_data_unfold. cbn zeta.
      destruct (fresh_program || changed py_eq data (cache_data w !! output)); [|done].
      destruct (last data).
      * destruct (interface _ _); [done|]. intros [= <- <-].
        eexists. split; [done|]. by apply prefix_app_r.
      * intros [= <- <-]. exists []. rewrite app_nil_r. split; [done|].
        apply prefix_nil.
Qed.

(** The smart-programming rule: what a run transmits, and what the run
    after one that returned does. *)
Lemma transition_to_buffered_calls group fresh_program w r w' :
  NoDup (clocks group).*1 →
  NoDup (analog_data group).*1 →
  transition_to_buffered interface group fresh_program w = (r, w') →
  let rule := clock_calls fresh_program (cache_clocks w) 0 (clocks group)
              ++ data_calls fresh_program group (cache_data w) 0 (analog_data group) in
  ∃ made,
    interface_calls w' = interface_calls w ++ made
    ∧ made `prefix_of` rule
    ∧ (is_ok r = true →
       made = rule
       ∧ ∃ final_state',
           transition_to_buffered interface group false w' = (Ok final_state', w')).
Proof.
  intros Hndc Hndd. unfold transition_to_buffered, mbind, M_bind.
  destruct (for_enumerate (program_clock interface fresh_program group) 0
              (clocks group) ∅ w) as [[final_state1|e] w1] eqn:Hclocks.
  - intros Hdata.
    apply clock_loop_ok in Hclocks as (Hcalls1 & Hdata1 & _ & Hall1); [|done].
    apply data_loop_prefix in Hdata as Hprefix; [|done].
    destruct Hprefix as (made2 & Hcalls2 & Hprefix2).
    eexists (_ ++ made2). rewrite Hcalls2, Hcalls1, <- app_assoc.
    split; [done|]. rewrite <- Hdata1. split; [by apply prefix_app|].
    destruct r as [final_state|e]; [intros _|done].
    apply data_loop_ok in Hdata as (Hcalls2' & Hclocks2 & _ & Hall2); [|done].
    rewrite Hcalls2' in Hcalls2. apply app_inv_head in Hcalls2 as <-.
    split; [done|].
    rewrite <- Hclocks2 in Hall1.
    destruct (clock_loop_rerun group (clocks group) 0 ∅ w' Hall1) as [final_state' ->].
    exists final_state'. by apply data_loop_rerun.
  - intros [= <- <-].
    apply clock_loop_prefix in Hclocks as (made & Hcalls & Hprefix); [|done].
    exists made. split; [done|]. split; [|done].
    by apply prefix_app_r.
Qed.

End Reflexive.

End WorkerFacts.

(** X24.  In every run of [transition_to_buffered] the calls made on the
    interface are an initial part of the list the rule prescribes: for the
    datasets of the clocks group in order and then for those of the analog
    data group, a transmission of exactly each array for which a fresh
    program is requested or for which [np.any(array != cached)] holds, with
    numpy's comparison: a missing entry differs, a one-element array is
    compared with every element of the other array, and arrays of other
    unequal lengths differ.  When the run returns, the calls made are that
    whole list, and the next run on the same file without a fresh program
    returns without any call, leaving the worker as it is. *)
Theorem smart_programming_rule interface (group : device_group Qc)
    fresh_program w r w' :
  NoDup (clocks group).*1 →
  NoDup (analog_data group).*1 →
  transition_to_buffered interface group fresh_program w = (r, w') →
  let rule := clock_calls fresh_program (cache_clocks w) 0 (clocks group)
              ++ data_calls fresh_program group (cache_data w) 0 (analog_data group) in
  ∃ made,
    interface_calls w' = interface_calls w ++ made
    ∧ made `prefix_of` rule
    ∧ (is_ok r = true →
       made = rule
       ∧ ∃ final_state',
           transition_to_buffered interface group false w' = (Ok final_state', w')).
Proof.
  apply transition_to_buffered_calls. intros x. by apply bool_decide_eq_true.
Qed.

(** *** Examples *)

(** The witness of [smart_programming_rule]: the first run on
    [example_group]. *)
Lemma smart_programming_rule_witness :
  let run := transition_to_buffered transport_up example_group false fresh_worker in
  let rule := clock_calls false (cache_clocks fresh_worker) 0 (clocks example_group)
              ++ data_calls false example_group (cache_data fresh_worker) 0
                   (analog_data example_group) in
  ∃ made,
    interface_calls run.2 = interface_calls fresh_worker ++ made
    ∧ made `prefix_of` rule
    ∧ (is_ok run.1 = true →
       made = rule
       ∧ ∃ final_state',
           transition_to_buffered transport_up example_group false run.2
           = (Ok final_state', run.2)).
Proof.
  apply (smart_programming_rule transport_up example_group false fresh_worker).
  - apply (bool_decide_unpack _). vm_compute. exact I.
  - apply (bool_decide_unpack _). vm_compute. exact I.
  - vm_compute. reflexivity.
Defined.

(** The calls of that run, written out. *)
Lemma example_group_calls :
  interface_calls (transition_to_buffered transport_up example_group false fresh_worker).2
  = [send_pseudoclock 0 0 [(0, 0); (0, 1)];
     send_pseudoclock 0 1 [(0, 1); (0, 1)];
     send_analog_data 0 0 (of_int 0) (of_int 5) [Qc_of_Z 1; Qc_of_Z 2]].
Proof. reflexivity. Qed.

(** C4.  The worker does not transmit every array that differs from the
    cached one.  After a run has sent and cached the single sample of
    [short_group], the run on [longer_group], without a fresh program,
    returns; it sends the new clock but not the new data, although the new
    data is another array than the cached one, and the cache still holds
    the single sample: [np.any] of the comparison of the three samples with
    the one cached sample finds no difference. *)
Theorem smart_programming_misses_change :
  let w1 := (transition_to_buffered transport_up short_group false fresh_worker).2 in
  let run := transition_to_buffered transport_up longer_group false w1 in
  cache_data w1 !! "analog 0" = Some [Qc_of_Z 2]
  ∧ group_get (analog_data longer_group) "analog 0"
    = Some [Qc_of_Z 2; Qc_of_Z 2; Qc_of_Z 2]
  ∧ is_ok run.1 = true
  ∧ interface_calls run.2
    = interface_calls w1 ++ [send_pseudoclock 0 0 [(0, 0); (0, 2)]]
  ∧ cache_data run.2 !! "analog 0" = Some [Qc_of_Z 2].
Proof.
  cbv zeta. split_and!; vm_compute; reflexivity.
Qed.

(** The same two runs with binary64 samples, as numpy holds them: the
    second run makes the call for the clock only. *)
Lemma misses_change_binary64 :
  let up : list (call float) → call float → bool := λ _ _, true in
  let short := DeviceGroup [("analog 0", [(0, 0)])] [("analog 0", [2%float])] [] in
  let longer := DeviceGroup [("analog 0", [(0, 0); (0, 2)])]
                  [("analog 0", [2%float; 2%float; 2%float])] [] in
  let w1 := (transition_to_buffered up short false (Worker ∅ ∅ [])).2 in
  interface_calls (transition_to_buffered up longer false w1).2
  = interface_calls w1 ++ [send_pseudoclock 0 0 [(0, 0); (0, 2)]].
Proof.
  cbv zeta. vm_compute. reflexivity.
Qed.



(** The state the clock loop records for a digital output: the initial
    state, plus the parity of the sum of the whole toggles column, in which
    the initial state is counted again. *)
Lemma program_clock_digital_state {T} `{Number T} interface fresh_program
    (group : device_group T) i output n s clock final_state w final_state1 w1 :
  group_get (analog_data group) output = None →
  program_clock interface fresh_program group i output ((n, s) :: clock) final_state w
    = (Ok final_state1, w1) →
  final_state1 !! output = Some (digital_state (s + (s + sum_toggles clock) `mod` 2)).
Proof.
  intros Hdigital. rewrite program_clock_unfold. cbn zeta. rewrite Hdigital.
  destruct (_ && _); [done|]. intros [= <- _]. by rewrite lookup_insert_eq.
Qed.

(** For an initial state of 0 or 1, that value is the parity of the initial
    state plus the toggles only when the initial state is 0. *)
Lemma digital_state_parity s k :
  s = 0 ∨ s = 1 →
  s + (s + k) `mod` 2 = (s + k) `mod` 2 ↔ s = 0.
Proof. intros [-> | ->]; split; try done; lia. Qed.

(** C2, evaluation.  (1) A digital output that starts at 1 and never
    toggles is reported with final state 2, not [(1 + 0) mod 2 = 1]; with one
    toggle it is reported with 1, not [(1 + 1) mod 2 = 0].  (2) On the second
    run over an unchanged file the analog output, whose last sample is 2, has
    no entry in the final state. *)
Theorem final_state_divergence :
  let first := transition_to_buffered transport_up example_group false fresh_worker in
  let second := transition_to_buffered transport_up example_group false first.2 in
  returned (transition_to_buffered transport_up high_group false fresh_worker)
    !! "digital 0" = Some (digital_state 2)
  ∧ returned first !! "digital 1" = Some (digital_state 1)
  ∧ returned first !! "analog 0" = Some (analog_sample (Qc_of_Z 2))
  ∧ is_ok second.1 = true
  ∧ returned second !! "analog 0" = None.
Proof. vm_compute. by split_and!. Qed.

(** * More of the reducer, the encoder and the expander *)

(** ** Definitions *)

(** The sum of the ['reps'] of a list of dictionaries. *)
Definition total_reps {T} (l : list (dict T)) : Z :=
  foldr (λ d n, reps d + n) 0 l.

(** The number of ['WAIT'] in a clock list. *)
Definition count_wait {T} (clock : list (instruction T)) : Z :=
  foldr (λ i n, if is_wait i then 1 + n else n) 0 clock.

(** ** The reducer *)

Section ReducerMore.
Context {T : Type} `{Number T}.

Lemma run_total_reps clock : ∀ e : dict T,
  total_reps (run e clock) = reps e + total_reps (dicts clock) + count_wait clock.
Proof.
  induction clock as [|[|d] clock IH]; intros e.
  - simpl. lia.
  - change (dicts (WAIT :: clock)) with (dicts clock).
    cbn [run total_reps foldr count_wait is_wait].
    fold (total_reps (run (Dict (of_int 0) 1) clock)). fold (count_wait clock).
    rewrite IH. cbn [reps]. lia.
  - change (dicts (Instr d :: clock)) with (d :: dicts clock).
    cbn [run count_wait foldr is_wait]. fold (count_wait clock).
    destruct (py_eq (step e) (step d)).
    + rewrite IH. cbn [reps total_reps foldr]. fold (total_reps (dicts clock)). lia.
    + cbn [total_reps foldr]. fold (total_reps (run (Dict (step d) (reps d)) clock)).
      fold (total_reps (dicts clock)). rewrite IH. cbn [reps]. lia.
Qed.

(** X1.  The reducer neither loses nor invents repetitions: the ['reps'] of
    its output add up to those of the input dictionaries plus one for each
    ['WAIT'], and the output is never longer than the input. *)
Theorem reduce_total_reps (clock : list (instruction T)) :
  total_reps (reduce_clock_instructions clock)
    = total_reps (dicts clock) + count_wait clock
  ∧ (length (reduce_clock_instructions clock) ≤ length clock)%nat.
Proof.
  destruct clock as [|i clock]; [done|]. rewrite reduce_cons. split.
  - rewrite run_total_reps. destruct i as [|d].
    + change (dicts (WAIT :: clock)) with (dicts clock).
      cbn [count_wait foldr is_wait reps]. fold (count_wait clock). lia.
    + change (dicts (Instr d :: clock)) with (d :: dicts clock).
      cbn [count_wait foldr is_wait reps total_reps].
      fold (count_wait clock). fold (total_reps (dicts clock)). lia.
  - apply run_length.
Qed.

(** X2.  The output for a clock list without ['WAIT'] has no two
    neighbouring elements whose steps compare equal. *)
Theorem reduce_no_equal_neighbours (clock : list (instruction T)) :
  no_wait clock = true →
  distinct_adjacent (reduce_clock_instructions clock) = true.
Proof.
  destruct clock as [|[|d] clock]; [done..|]. intros Hw.
  rewrite reduce_cons.
  by destruct (run_distinct clock (Dict (step d) (reps d)) Hw) as (e' & rest & -> & _ & Hd).
Qed.

End ReducerMore.

Lemma reduce_no_equal_neighbours_witness :
  distinct_adjacent (reduce_clock_instructions
    [Instr (Dict (ratio 1 10) 1); Instr (Dict (ratio 1 10) 2); Instr (Dict (ratio 1 5) 2)])
  = true.
Proof. apply reduce_no_equal_neighbours. reflexivity. Defined.

(** ** The encoder *)

(** [f] on every element in turn, stopping at the first that raises. *)
Fixpoint result_map {A B : Type} (f : A → result B) (l : list A) : result (list B) :=
  match l with
  | [] => Ok []
  | x :: l' => y ← f x; ys ← result_map f l'; Ok (y :: ys)
  end.

(** The tick of an instruction other than the first. *)
Definition later_tick {T} `{Number T} (clock_limit : T) (d : dict T) : result (Z * Z) :=
  n_clocks ← hold_clocks d clock_limit;
  Ok (n_clocks, reps d - 1).

(** The toggles that a list of ticks stands for, one more than written for
    each tick. *)
Definition toggles_of (ticks : list (Z * Z)) : Z :=
  foldr (λ t n, t.2 + 1 + n) 0 ticks.

Section EncoderMore.
Context {T : Type} `{Number T}.

Lemma later_tick_unfold (clock_limit : T) (d : dict T) :
  later_tick clock_limit d
  = (n_clocks ← hold_clocks d clock_limit; Ok (n_clocks, reps d - 1)).
Proof. done. Qed.

Lemma convert_loop_later (clock : list (dict T)) output clock_limit : ∀ i ct_clock,
  convert_loop (S i) clock output clock_limit ct_clock
  = (rest ← result_map (later_tick clock_limit) clock; Ok (ct_clock ++ rest)).
Proof.
  induction clock as [|d clock IH]; intros i ct_clock.
  - simpl. by rewrite app_nil_r.
  - cbn [convert_loop result_map]. unfold convert_tick.
    rewrite bool_decide_eq_false_2 by done.
    unfold append_toggles.
    rewrite later_tick_unfold.
    destruct (hold_clocks d clock_limit) as [n|e]; simpl; [|done].
    rewrite IH.
    destruct (result_map (later_tick clock_limit) clock) as [rest|e]; [|done]. simpl.
    by rewrite <- app_assoc.
Qed.

(** X3.  The encoder in closed form, errors included: the first
    instruction gives the tick of the initial state and, unless it has a
    single repetition, a tick with two toggles less than its repetitions;
    every later instruction gives one tick with one toggle less than its
    repetitions. *)
Theorem convert_closed_form (tick : dict T) clock output clock_limit :
  convert_to_clocks_and_toggles (tick :: clock) output clock_limit
  = (initial_state ← initial_state_of output;
     n_clocks ← hold_clocks tick clock_limit;
     rest ← result_map (later_tick clock_limit) clock;
     Ok ((n_clocks, initial_state)
         :: (if reps tick =? 1 then [] else [(n_clocks, reps tick - 2)]) ++ rest)).
Proof.
  unfold convert_to_clocks_and_toggles. cbn [convert_loop]. unfold convert_tick.
  rewrite bool_decide_eq_true_2 by done.
  destruct (initial_state_of output) as [s0|e]; [|done]. simpl.
  destruct (hold_clocks tick clock_limit) as [n|e] eqn:Hn; [|done]. simpl.
  destruct (reps tick =? 1) eqn:Hone.
  - apply Z.eqb_eq in Hone. rewrite Hone. simpl.
    rewrite convert_loop_later.
    by destruct (result_map (later_tick clock_limit) clock).
  - apply Z.eqb_neq in Hone.
    destruct (reps tick - 1 =? 0) eqn:Hzero; [apply Z.eqb_eq in Hzero; lia|].
    unfold append_toggles.
    change (hold_clocks (Dict (step tick) (reps tick - 1)) clock_limit)
      with (hold_clocks tick clock_limit).
    rewrite Hn. simpl. rewrite convert_loop_later.
    destruct (result_map (later_tick clock_limit) clock); [|done]. simpl.
    do 4 f_equal. cbn [reps]. lia.
Qed.

Lemma later_ticks_toggles (clock : list (dict T)) clock_limit : ∀ rest,
  result_map (later_tick clock_limit) clock = Ok rest →
  toggles_of rest = total_reps clock ∧ length rest = length clock.
Proof.
  induction clock as [|d clock IH]; intros rest; cbn [result_map].
  - by intros [= <-].
  - rewrite later_tick_unfold.
    destruct (hold_clocks d clock_limit) as [n|e]; simpl; [|done].
    destruct (result_map (later_tick clock_limit) clock) as [rest'|e]; [|done]. simpl.
    intros [= <-]. destruct (IH rest' eq_refl) as [IHt IHl].
    cbn [toggles_of total_reps foldr length snd].
    fold (toggles_of rest'). fold (total_reps clock). split; [lia|by f_equal].
Qed.

(** X4.  When the encoder returns, every repetition is accounted for: the
    list starts with the tick of the initial state, which stands for one
    repetition, and the later ticks, each standing for one toggle more than
    it writes, stand for all the others; there is one tick per instruction,
    and one more unless the first instruction has a single repetition. *)
Theorem convert_accounts_for_reps (tick : dict T) clock output clock_limit ticks :
  convert_to_clocks_and_toggles (tick :: clock) output clock_limit = Ok ticks →
  ∃ first later,
    ticks = first :: later
    ∧ initial_state_of output = Ok first.2
    ∧ 1 + toggles_of later = total_reps (tick :: clock)
    ∧ length later = (length clock + if (reps tick =? 1)%Z then 0 else 1)%nat.
Proof.
  unfold convert_to_clocks_and_toggles. cbn [convert_loop]. unfold convert_tick.
  rewrite bool_decide_eq_true_2 by done.
  destruct (initial_state_of output) as [s0|e]; [|done]. simpl.
  destruct (hold_clocks tick clock_limit) as [n|e] eqn:Hn; [|done]. simpl.
  destruct (reps tick =? 1) eqn:Hone.
  - apply Z.eqb_eq in Hone. rewrite Hone. simpl.
    rewrite convert_loop_later.
    destruct (result_map (later_tick clock_limit) clock) as [rest|e] eqn:Hrest; [|done].
    simpl. intros [= <-]. apply later_ticks_toggles in Hrest as [Ht Hl].
    exists (n, s0), rest. split_and!; [done..| |lia].
    cbn [total_reps foldr]. fold (total_reps clock). lia.
  - apply Z.eqb_neq in Hone.
    destruct (reps tick - 1 =? 0) eqn:Hzero; [apply Z.eqb_eq in Hzero; lia|].
    unfold append_toggles.
    change (hold_clocks (Dict (step tick) (reps tick - 1)) clock_limit)
      with (hold_clocks tick clock_limit).
    rewrite Hn. simpl. rewrite convert_loop_later.
    destruct (result_map (later_tick clock_limit) clock) as [rest|e] eqn:Hrest; [|done].
    simpl. intros [= <-]. apply later_ticks_toggles in Hrest as [Ht Hl].
    eexists (n, s0), (_ :: rest). split_and!; [done..| |simpl; lia].
    cbn [toggles_of total_reps foldr snd reps].
    fold (toggles_of rest). fold (total_reps clock). lia.
Qed.

End EncoderMore.

Lemma convert_accounts_for_reps_witness :
  ∃ first later,
    [(0, 0); (0, 1); (1, 1)] = first :: later
    ∧ initial_state_of (DigitalOut [0]) = Ok first.2
    ∧ 1 + toggles_of later = total_reps [Dict (ratio 1 10) 3; Dict (ratio 1 5) 2]
    ∧ length later = (length [Dict (ratio 1 5) 2]
                      + if (reps (Dict (ratio 1 10) 3) =? 1)%Z then 0 else 1)%nat.
Proof.
  apply (convert_accounts_for_reps (Dict (ratio 1 10) 3) [Dict (ratio 1 5) 2]
           (DigitalOut [0]) (of_int 10)).
  vm_compute. reflexivity.
Defined.

(** ** The expander *)

(** Each time is at most the next one. *)
Fixpoint ascending (times : list Qc) : Prop :=
  match times with
  | t :: (u :: _) as times' => (t ≤ u)%Qc ∧ ascending times'
  | _ => True
  end.

(** The toggles the ticks ask for, a negative count asking for none. *)
Definition toggle_budget (clock : list (Z * Z)) : nat :=
  foldr (λ t n, (Z.to_nat t.2 + n)%nat) 0%nat clock.

Section ExpanderMore.
Context {T : Type} `{Number T}.

Lemma toggle_loop_length k n_clocks (clock_limit stop_time : T) : ∀ times,
  times ≠ [] →
  ∃ new, toggle_loop k n_clocks clock_limit stop_time times = Ok (times ++ new)
         ∧ (length new ≤ k)%nat.
Proof.
  induction k as [|k IH]; intros times Hne; cbn [toggle_loop].
  - exists []. by rewrite app_nil_r.
  - destruct (last times) as [t|] eqn:Hlast; [|by apply last_None in Hlast].
    cbn zeta. destruct (py_gt _ stop_time).
    + exists []. rewrite app_nil_r. split; [done|simpl; lia].
    + destruct (IH (times ++ [py_add t (py_div (of_int n_clocks) clock_limit)]))
        as (new & -> & Hnew); [by destruct times|].
      eexists (_ :: new). rewrite <- app_assoc. split; [done|simpl; lia].
Qed.

Lemma expand_loop_length clock (clock_limit stop_time : T) : ∀ i times,
  times ≠ [] →
  ∃ new, expand_loop (S i) clock clock_limit stop_time times = Ok (times ++ new)
         ∧ (length new ≤ toggle_budget clock)%nat.
Proof.
  induction clock as [|[n_clocks toggles] clock IH]; intros i times Hne; cbn [expand_loop].
  - exists []. by rewrite app_nil_r.
  - rewrite bool_decide_eq_false_2 by done.
    destruct (toggle_loop_length (Z.to_nat toggles) n_clocks clock_limit stop_time times Hne)
      as (new1 & -> & Hnew1).
    destruct (IH (S i) (times ++ new1)) as (new2 & Hrun & Hnew2); [by destruct times|].
    exists (new1 ++ new2). split.
    + rewrite app_assoc. exact Hrun.
    + rewrite length_app. cbn [toggle_budget foldr snd]. fold (toggle_budget clock). lia.
Qed.

(** X5.  The expander returns no time for an empty list of ticks, and
    otherwise one time for the first tick and at most one for each toggle
    that the later ticks ask for. *)
Theorem expand_clock_length clock (clock_limit stop_time : T) :
  ∃ times, expand_clock clock clock_limit stop_time = Ok times
           ∧ (times = [] ↔ clock = [])
           ∧ (length times ≤ 1 + toggle_budget (tail clock))%nat.
Proof.
  unfold expand_clock. destruct clock as [|[n_clocks toggles] clock]; cbn [expand_loop].
  - exists []. split_and!; [done..|simpl; lia].
  - rewrite bool_decide_eq_true_2 by done.
    destruct (expand_loop_length clock clock_limit stop_time 0
                ([] ++ [py_div (of_int n_clocks) clock_limit])) as (new & Hrun & Hnew);
      [done|].
    eexists. split; [exact Hrun|]. split; [done|].
    cbn [app length tail]. lia.
Qed.

Lemma expand_loop_app c1 c2 (clock_limit stop_time : T) : ∀ i times,
  expand_loop i (c1 ++ c2) clock_limit stop_time times
  = (times' ← expand_loop i c1 clock_limit stop_time times;
     expand_loop (i + length c1) c2 clock_limit stop_time times').
Proof.
  induction c1 as [|[n_clocks toggles] c1 IH]; intros i times.
  - simpl. by rewrite Nat.add_0_r.
  - cbn [app expand_loop length].
    destruct (if bool_decide (i = 0%nat) then _ else _) as [times1|e]; [|done].
    simpl. rewrite IH. by replace (S i + length c1)%nat with (i + S (length c1))%nat by lia.
Qed.


End ExpanderMore.


Lemma Qcdiv_nonneg (x y : Qc) : (0 ≤ x)%Qc → (0 < y)%Qc → (0 ≤ x / y)%Qc.
Proof.
  intros Hx Hy. destruct (Qclt_le_dec (x / y) 0) as [Hneg|]; [|done].
  apply (Qcmult_lt_mono_pos_l _ _ y) in Hneg; [|done].
  rewrite Qcmult_div_r, Qcmult_0_r in Hneg.
  - by apply Qclt_not_le in Hneg.
  - intros ->. by apply Qclt_not_eq in Hy.
Qed.

Lemma ascending_snoc times t x :
  ascending times → last times = Some t → (t ≤ x)%Qc → ascending (times ++ [x]).
Proof.
  induction times as [|a [|b times] IH]; intros Hasc Hlast Hle.
  - done.
  - simpl in Hlast. injection Hlast as ->. by split.
  - destruct Hasc as [Hab Hasc]. split; [done|]. by apply IH.
Qed.

Lemma toggle_loop_ascending k n_clocks (clock_limit stop_time : Qc) : ∀ times,
  (0 ≤ Qc_of_Z n_clocks / clock_limit)%Qc →
  times ≠ [] →
  ascending times →
  ∃ times', toggle_loop k n_clocks clock_limit stop_time times = Ok times'
            ∧ times' ≠ [] ∧ ascending times'.
Proof.
  induction k as [|k IH]; intros times Hstep Hne Hasc; cbn [toggle_loop].
  - by exists times.
  - destruct (last times) as [t|] eqn:Hlast; [|by apply last_None in Hlast].
    cbn zeta. destruct (py_gt _ stop_time); [by exists times|].
    apply IH; [done|by destruct times|].
    apply (ascending_snoc _ t); [done..|].
    cbn [py_add py_div of_int exact].
    rewrite <- (Qcplus_0_r t) at 1. by apply Qcplus_le_mono_l.
Qed.

Lemma expand_loop_ascending clock (clock_limit stop_time : Qc) : ∀ i times,
  (0 < clock_limit)%Qc →
  Forall (λ t, 0 ≤ t.1) clock →
  times ≠ [] →
  ascending times →
  ∃ times', expand_loop (S i) clock clock_limit stop_time times = Ok times'
            ∧ ascending times'.
Proof.
  induction clock as [|[n_clocks toggles] clock IH];
    intros i times Hlimit Hall Hne Hasc; cbn [expand_loop].
  - by exists times.
  - apply Forall_cons in Hall as [Hn Hall]. cbn [fst] in Hn.
    rewrite bool_decide_eq_false_2 by done.
    destruct (toggle_loop_ascending (Z.to_nat toggles) n_clocks clock_limit stop_time times)
      as (times1 & -> & Hne1 & Hasc1); [|done..|].
    + apply Qcdiv_nonneg; [|done].
      pose proof (proj1 (Z2Qc_inj_le 0 n_clocks) Hn) as Hq.
      by rewrite Z2Qc_inj_0 in Hq.
    + by apply IH.
Qed.

(** X7.  With a positive clock limit and no negative number of clocks in
    the ticks after the first, the times the expander returns never
    decrease. *)
Theorem expand_clock_ascending clock (clock_limit stop_time : Qc) :
  (0 < clock_limit)%Qc →
  Forall (λ t, 0 ≤ t.1) (tail clock) →
  ∃ times, expand_clock clock clock_limit stop_time = Ok times ∧ ascending times.
Proof.
  intros Hlimit Hall. unfold expand_clock.
  destruct clock as [|[n_clocks toggles] clock]; cbn [expand_loop].
  - by exists [].
  - rewrite bool_decide_eq_true_2 by done.
    by apply expand_loop_ascending.
Qed.

Lemma expand_clock_ascending_witness :
  ∃ times, expand_clock [(0, 0); (0, 1); (1, 1)] (of_int 10) (of_int 1) = Ok times
           ∧ ascending times.
Proof.
  apply expand_clock_ascending; [reflexivity|].
  repeat constructor; simpl; lia.
Defined.

(** * The worker's [program_manual] *)

(** ** Definitions *)

(** [s.split()]: the maximal runs of characters that are not whitespace. *)
Fixpoint split_ws (s : string) : list string :=
  match s with
  | EmptyString => []
  | String c s' =>
      if is_space c then split_ws s'
      else match s' with
           | EmptyString => [String c EmptyString]
           | String c' _ =>
               if is_space c' then String c EmptyString :: split_ws s'
               else match split_ws s' with
                    | w :: ws => String c w :: ws
                    | [] => [String c EmptyString]
                    end
           end
  end.

(** The call [program_manual] makes on [self.interface]. *)
Inductive realtime_call (T : Type) :=
  | send_realtime_value (board_number channel_number : Z) (value : T)
      (range_min range_max : Z) (output_type : string).
Arguments send_realtime_value {T} board_number channel_number value
  range_min range_max output_type.

Definition requested {T} (c : realtime_call T) : T :=
  match c with send_realtime_value _ _ value _ _ _ => value end.

(** The worker as [program_manual] uses it: [self.smart_cache['output_values']]
    and the calls made so far on [self.interface], oldest first. *)
Record manual_worker (T : Type) := ManualWorker {
  output_values : gmap string T;
  realtime_calls : list (realtime_call T)
}.
Arguments ManualWorker {T} output_values realtime_calls.
Arguments output_values {T} _.
Arguments realtime_calls {T} _.

(** [value != cached], where [cached] is what [dict.get] returned. *)
Definition value_differs {T} `{Number T} (value : T) (cached : option T) : bool :=
  match cached with
  | None => true
  | Some c => negb (py_eq value c)
  end.

Section Manual.
Context {T : Type} `{Number T}.

(** The transport behind [send_realtime_value]: given the calls made
    before, the value the board reports for this call, or [None] when the
    call raises. *)
Variable realtime : list (realtime_call T) → realtime_call T → option T.

(** The body of the loop [for output_name in values]. *)
Definition program_manual_value (output_name : string) (value : T)
    (modified_values : gmap string T) (w : manual_worker T)
    : result (gmap string T) * manual_worker T :=
  if value_differs value (output_values w !! output_name) then
    match split_ws output_name with
    | [output_type; channel_number] =>
        match int_of_string channel_number with
        | Ok channel_number =>
            let c := send_realtime_value 0 channel_number value 0 10 output_type in
            let calls := realtime_calls w ++ [c] in
            match realtime (realtime_calls w) c with
            | Some new_value =>
                (Ok (<[output_name := new_value]> modified_values),
                 ManualWorker (<[output_name := new_value]> (output_values w)) calls)
            | None => (Raise TransportError, ManualWorker (output_values w) calls)
            end
        | Raise e => (Raise e, w)
        end
    | _ => (Raise ValueError, w)
    end
  else (Ok modified_values, w).

(** The loop over the dictionary [values], given as the list of its items
    in iteration order. *)
Fixpoint program_manual_loop (values : list (string * T))
    (modified_values : gmap string T) (w : manual_worker T)
    : result (gmap string T) * manual_worker T :=
  match values with
  | [] => (Ok modified_values, w)
  | (output_name, value) :: values' =>
      match program_manual_value output_name value modified_values w with
      | (Ok modified_values, w') => program_manual_loop values' modified_values w'
      | (Raise e, w') => (Raise e, w')
      end
  end.

Definition program_manual (values : list (string * T)) (w : manual_worker T)
    : result (gmap string T) * manual_worker T :=
  program_manual_loop values ∅ w.

End Manual.

(** ** Properties *)

Section ManualFacts.
Context {T : Type} `{Number T}.
Variable realtime : list (realtime_call T) → realtime_call T → option T.

(** What one pass of the loop body that returns has done. *)
Lemma program_manual_value_ok output_name value modified w modified1 w1 :
  program_manual_value realtime output_name value modified w = (Ok modified1, w1) →
  (value_differs value (output_values w !! output_name) = false
   ∧ modified1 = modified ∧ w1 = w)
  ∨ (value_differs value (output_values w !! output_name) = true
     ∧ ∃ c new_value,
         realtime (realtime_calls w) c = Some new_value
         ∧ requested c = value
         ∧ modified1 = <[output_name := new_value]> modified
         ∧ output_values w1 = <[output_name := new_value]> (output_values w)
         ∧ realtime_calls w1 = realtime_calls w ++ [c]).
Proof.
  unfold program_manual_value.
  destruct (value_differs value (output_values w !! output_name)); [|intros [= <- <-]; by left].
  destruct (split_ws output_name) as [|output_type [|channel [|]]]; try done.
  destruct (int_of_string channel) as [channel_number|e]; [|done]. cbn zeta.
  destruct (realtime _ _) as [new_value|] eqn:Hcall; [|done].
  intros [= <- <-]. right. split; [done|]. eexists _, new_value. by split_and!.
Qed.

(** A pass of the loop body that raises leaves the cache as it is. *)
Lemma program_manual_value_raise output_name value modified w e w1 :
  program_manual_value realtime output_name value modified w = (Raise e, w1) →
  output_values w1 = output_values w.
Proof.
  unfold program_manual_value.
  destruct (value_differs value (output_values w !! output_name)); [|done].
  destruct (split_ws output_name) as [|output_type [|channel [|]]];
    try (by intros [= _ <-]).
  destruct (int_of_string channel) as [channel_number|e']; [|by intros [= _ <-]].
  cbn zeta. destruct (realtime _ _); [done|]. by intros [= _ <-].
Qed.

Lemma program_manual_loop_ok values : ∀ modified w modified' w',
  NoDup (values.*1) →
  program_manual_loop realtime values modified w = (Ok modified', w') →
  ∃ delta new,
    modified' = delta ∪ modified
    ∧ output_values w' = delta ∪ output_values w
    ∧ (∀ name, is_Some (delta !! name) ↔
         ∃ v, (name, v) ∈ values ∧ value_differs v (output_values w !! name) = true)
    ∧ realtime_calls w' = realtime_calls w ++ new
    ∧ length new = size delta
    ∧ Forall (λ p, value_differs p.2 (output_values w' !! p.1) = true →
                   ∃ hist c new_value, realtime hist c = Some new_value
                     ∧ requested c = p.2
                     ∧ output_values w' !! p.1 = Some new_value) values.
Proof.
  induction values as [|[name value] values IH]; intros modified w modified' w' Hnd.
  - intros [= <- <-]. exists ∅, []. rewrite !(left_id_L ∅ (∪)), app_nil_r.
    split_and!; try done. intros n. rewrite lookup_empty. split.
    + by intros [? ?].
    + intros (v & Hin & _). by apply elem_of_nil in Hin.
  - rewrite fmap_cons in Hnd. apply NoDup_cons in Hnd as [Hname Hnd]. cbn [fst] in Hname.
    cbn [program_manual_loop].
    destruct (program_manual_value realtime name value modified w)
      as [[modified1|e] w1] eqn:Hbody; [|done].
    intros Hrest. apply IH in Hrest as (delta & new & -> & Hcache & Hdom & Hcalls & Hlen & Hall);
      [|done].
    assert (Hnone : delta !! name = None).
    { apply eq_None_not_Some. intros Hsome. apply Hdom in Hsome as (v & Hin & _).
      apply Hname. apply list_elem_of_fmap. by exists (name, v). }
    assert (Hkeep : output_values w' !! name = output_values w1 !! name).
    { rewrite Hcache. by apply lookup_union_r. }
    apply program_manual_value_ok in Hbody
      as [(Hsame & -> & ->)|(Hdiff & c & new_value & Hcall & Hreq & -> & Hcache1 & Hcalls1)].
    + exists delta, new. split_and!; try done.
      * intros n. rewrite Hdom. split; intros (v & Hin & Hv).
        -- exists v. split; [by right|done].
        -- apply elem_of_cons in Hin as [[= -> ->]|Hin]; [congruence|]. by exists v.
      * constructor; [|done]. cbn [fst snd]. rewrite Hkeep. congruence.
    + exists (<[name := new_value]> delta), (c :: new). split_and!.
      * rewrite <- insert_union_l. by rewrite insert_union_r.
      * rewrite Hcache, Hcache1. rewrite <- insert_union_l. by rewrite insert_union_r.
      * intros n. rewrite lookup_insert_is_Some'. rewrite Hdom. split.
        -- intros [->|(v & Hin & Hv)].
           ++ exists value. split; [by left|done].
           ++ exists v. split; [by right|].
              rewrite Hcache1, lookup_insert_ne in Hv; [done|].
              intros ->. apply Hname. apply list_elem_of_fmap. by exists (n, v).
        -- intros (v & Hin & Hv).
           apply elem_of_cons in Hin as [[= -> ->]|Hin]; [by left|].
           right. exists v. split; [done|].
           rewrite Hcache1, lookup_insert_ne; [done|].
           intros ->. apply Hname. apply list_elem_of_fmap. by exists (n, v).
      * rewrite Hcalls, Hcalls1. by rewrite <- app_assoc.
      * rewrite map_size_insert_None by done. simpl. by rewrite Hlen.
      * constructor; [|done]. cbn [fst snd]. intros _.
        exists (realtime_calls w), c, new_value. split_and!; [done..|].
        by rewrite Hkeep, Hcache1, lookup_insert_eq.
Qed.

(** X8.  When [program_manual] returns, the dictionary it returns holds
    exactly the outputs whose requested value differed from the cached one,
    one call was made for each of them, and the cache is the old cache
    overwritten by the returned dictionary. *)
Theorem program_manual_returns values w modified w' :
  NoDup (values.*1) →
  program_manual realtime values w = (Ok modified, w') →
  output_values w' = modified ∪ output_values w
  ∧ (∀ name, is_Some (modified !! name) ↔
       ∃ v, (name, v) ∈ values ∧ value_differs v (output_values w !! name) = true)
  ∧ ∃ new, realtime_calls w' = realtime_calls w ++ new ∧ length new = size modified.
Proof.
  intros Hnd Hrun. apply program_manual_loop_ok in Hrun
    as (delta & new & -> & Hcache & Hdom & Hcalls & Hlen & _); [|done].
  rewrite (right_id_L ∅ (∪)). split_and!; [done..|]. by exists new.
Qed.

(** X9.  On a board that reports back the value it was asked for, a second
    [program_manual] with the same values returns the empty dictionary
    without any call and leaves the worker as it is. *)
Theorem program_manual_again values w modified w' :
  (∀ hist c new_value, realtime hist c = Some new_value →
     py_eq (requested c) new_value = true) →
  NoDup (values.*1) →
  program_manual realtime values w = (Ok modified, w') →
  program_manual realtime values w' = (Ok ∅, w').
Proof.
  intros Hecho Hnd Hrun. apply program_manual_loop_ok in Hrun
    as (delta & new & _ & _ & _ & _ & _ & Hall); [|done].
  unfold program_manual. generalize (∅ : gmap string T) as modified0.
  clear Hnd. induction values as [|[name value] values IH]; intros modified0; [done|].
  apply Forall_cons in Hall as [Hhead Hall]. cbn [fst snd] in Hhead.
  cbn [program_manual_loop]. unfold program_manual_value.
  destruct (value_differs value (output_values w' !! name)) eqn:Hdiff; [|by apply IH].
  destruct (Hhead eq_refl) as (hist & c & new_value & Hcall & Hreq & Hcached).
  rewrite Hcached in Hdiff. simpl in Hdiff.
  apply Hecho in Hcall. rewrite Hreq in Hcall. by rewrite Hcall in Hdiff.
Qed.

Lemma program_manual_loop_raises values : ∀ w modified e w',
  NoDup (values.*1) →
  program_manual_loop realtime values modified w = (Raise e, w') →
  ∃ before name value after modified1 w1,
    values = before ++ (name, value) :: after
    ∧ program_manual_loop realtime before modified w = (Ok modified1, w1)
    ∧ program_manual_value realtime name value modified1 w1 = (Raise e, w')
    ∧ output_values w' = output_values w1
    ∧ output_values w' !! name = output_values w !! name
    ∧ Forall (λ p, output_values w' !! p.1 = output_values w !! p.1) after.
Proof.
  induction values as [|[name value] values IH]; intros w modified e w' Hnd; [done|].
  rewrite fmap_cons in Hnd. apply NoDup_cons in Hnd as [Hname Hnd]. cbn [fst] in Hname.
  cbn [program_manual_loop].
  destruct (program_manual_value realtime name value modified w)
    as [[modified1|e1] w1] eqn:Hbody.
  - intros Hrest.
    apply IH in Hrest
      as (before & n & v & after & m & wb & -> & Hbefore & Hraise & Hsame & Hn & Hafter);
      [|done].
    assert (Hother : ∀ o, o ∈ (before ++ (n, v) :: after).*1 →
                          output_values w1 !! o = output_values w !! o).
    { intros o Ho.
      apply program_manual_value_ok in Hbody
        as [(_ & _ & ->)|(_ & c & new_value & _ & _ & _ & -> & _)]; [done|].
      apply lookup_insert_ne. by intros ->. }
    exists ((name, value) :: before), n, v, after, m, wb.
    split_and!; [done| |done|done| |].
    + cbn [program_manual_loop]. by rewrite Hbody.
    + rewrite Hn. apply Hother. rewrite fmap_app, fmap_cons.
      apply elem_of_app. right. by left.
    + apply Forall_forall. intros q Hq. rewrite Forall_forall in Hafter.
      rewrite (Hafter q Hq). apply Hother. apply list_elem_of_fmap.
      exists q. split; [done|]. apply elem_of_app. right. by right.
  - intros [= <- <-]. pose proof (program_manual_value_raise _ _ _ _ _ _ Hbody) as Hsame.
    exists [], name, value, values, modified, w. rewrite Hsame.
    split_and!; [done..|]. by apply Forall_forall.
Qed.

(** X10.  When [program_manual] raises, the loop has returned for the
    outputs before some output and has raised in the pass for that output.
    The cache is then as the passes before left it: the pass that raised has
    written nothing.  So the cache entry of the output at which it raised is
    as it was before the call, and so are the entries of the outputs that
    come after it. *)
Theorem program_manual_raises values w e w' :
  NoDup (values.*1) →
  program_manual realtime values w = (Raise e, w') →
  ∃ before name value after modified1 w1,
    values = before ++ (name, value) :: after
    ∧ program_manual realtime before w = (Ok modified1, w1)
    ∧ program_manual_value realtime name value modified1 w1 = (Raise e, w')
    ∧ output_values w' = output_values w1
    ∧ output_values w' !! name = output_values w !! name
    ∧ Forall (λ p, output_values w' !! p.1 = output_values w !! p.1) after.
Proof.
  unfold program_manual. apply program_manual_loop_raises.
Qed.

End ManualFacts.

Definition echo_board : list (realtime_call Qc) → realtime_call Qc → option Qc :=
  λ _ c, Some (requested c).

Definition dead_board : list (realtime_call Qc) → realtime_call Qc → option Qc :=
  λ _ _, None.

Definition front_panel : list (string * Qc) :=
  [("analog 0", Qc_of_Z 2); ("digital 1", Qc_of_Z 1)].

Definition manual_start : manual_worker Qc :=
  ManualWorker {["analog 0" := Qc_of_Z 2; "digital 1" := Qc_of_Z 0]} [].

Definition manual_returned (r : result (gmap string Qc) * manual_worker Qc)
    : gmap string Qc :=
  match r.1 with Ok modified => modified | Raise _ => ∅ end.

Lemma program_manual_returns_witness :
  let run := program_manual echo_board front_panel manual_start in
  output_values run.2 = manual_returned run ∪ output_values manual_start
  ∧ (∀ name, is_Some (manual_returned run !! name) ↔
       ∃ v, (name, v) ∈ front_panel
            ∧ value_differs v (output_values manual_start !! name) = true)
  ∧ ∃ new, realtime_calls run.2 = realtime_calls manual_start ++ new
           ∧ length new = size (manual_returned run).
Proof.
  apply (program_manual_returns echo_board front_panel manual_start).
  - apply (bool_decide_unpack _). vm_compute. exact I.
  - vm_compute. reflexivity.
Defined.

Lemma program_manual_again_witness :
  let run := program_manual echo_board front_panel manual_start in
  program_manual echo_board front_panel run.2 = (Ok ∅, run.2).
Proof.
  apply (program_manual_again echo_board front_panel manual_start
           (manual_returned (program_manual echo_board front_panel manual_start))).
  - intros hist c new_value [= <-]. by apply bool_decide_eq_true.
  - apply (bool_decide_unpack _). vm_compute. exact I.
  - vm_compute. reflexivity.
Defined.

Lemma program_manual_raises_witness :
  let run := program_manual dead_board front_panel manual_start in
  ∃ before name value after modified1 w1,
    front_panel = before ++ (name, value) :: after
    ∧ program_manual dead_board before manual_start = (Ok modified1, w1)
    ∧ program_manual_value dead_board name value modified1 w1
      = (Raise TransportError, run.2)
    ∧ output_values run.2 = output_values w1
    ∧ output_values run.2 !! name = output_values manual_start !! name
    ∧ Forall (λ p, output_values run.2 !! p.1 = output_values manual_start !! p.1) after.
Proof.
  apply (program_manual_raises dead_board front_panel manual_start TransportError).
  - apply (bool_decide_unpack _). vm_compute. exact I.
  - vm_compute. reflexivity.
Defined.

(** * [FPGADevice.outputs] *)

From stdpp Require Import pretty.

Local Open Scope Z_scope.

(** ** Definitions *)

(** The device as [outputs] uses it.  A pseudoclock is kept as its name and
    its connection, a clock line as its name. *)
Record FPGADevice := FPGA {
  fpga_name : string;
  n_analog : option Z;
  n_digital : option Z;
  pseudoclocks : list (string * string);
  clocklines : list string;
  output_devices : list OutputIntermediateDevice
}.

(** [FPGADevice.__init__] *)
Definition FPGADevice_init (name : string) (n_analog n_digital : option Z) : FPGADevice :=
  FPGA name n_analog n_digital [] [] [].

(** [self.n_digital + self.n_analog], [None] when the sum raises
    [TypeError] because a count is [None]. *)
Definition max_n (self : FPGADevice) : option Z :=
  match n_digital self, n_analog self with
  | Some d, Some a => Some (d + a)
  | _, _ => None
  end.

(** The property [outputs]: it raises when the number of pseudoclocks
    equals [max_n], and otherwise creates a pseudoclock, a clock line and an
    output device numbered [n], and returns the output device.  The
    constructors of labscript are taken to return. *)
Definition outputs (self : FPGADevice) : result (OutputIntermediateDevice * FPGADevice) :=
  let n := length (pseudoclocks self) in
  if bool_decide (Some (Z.of_nat n) = max_n self) then
    Raise (LabscriptError
      ("Cannot connect more than " +:+ pretty n +:+ " outputs to the device '"
         +:+ fpga_name self +:+ "'"))
  else
    let pc := ("fpga_pseudoclock" +:+ pretty n, "clock_" +:+ pretty n) in
    let cl := "fpga_output" +:+ pretty n +:+ "_clock_line" in
    let oid := OID ("fpga_output_device" +:+ pretty n) [] None in
    Ok (oid, FPGA (fpga_name self) (n_analog self) (n_digital self)
               (pseudoclocks self ++ [pc]) (clocklines self ++ [cl])
               (output_devices self ++ [oid])).

(** The device after [k] uses of [outputs], those that raise included. *)
Fixpoint after_outputs (k : nat) (self : FPGADevice) : FPGADevice :=
  match k with
  | O => self
  | S k' =>
      match outputs self with
      | Ok (_, self') => after_outputs k' self'
      | Raise _ => after_outputs k' self
      end
  end.

(** The output devices numbered from 0 up to [m], [m] excluded. *)
Definition numbered_devices (m : nat) : list OutputIntermediateDevice :=
  (λ n : nat, OID ("fpga_output_device" +:+ pretty n) [] None) <$> seq 0 m.

(** The number of output devices [k] uses of [outputs] can give: all of
    them, unless both counts are given and their sum is not negative. *)
Definition capacity (n_analog n_digital : option Z) (k : nat) : nat :=
  match n_digital, n_analog with
  | Some d, Some a => if 0 <=? d + a then min k (Z.to_nat (d + a)) else k
  | _, _ => k
  end.

(** ** Theorems *)

Lemma numbered_devices_S (m : nat) :
  numbered_devices (S m)
  = numbered_devices m ++ [OID ("fpga_output_device" +:+ pretty m) [] None].
Proof.
  unfold numbered_devices. by rewrite seq_S, fmap_app.
Qed.

Lemma outputs_max_n (self self' : FPGADevice) oid :
  outputs self = Ok (oid, self') → max_n self' = max_n self.
Proof.
  unfold outputs. case_bool_decide; [done|]. intros [= _ <-]. done.
Qed.

(** The devices after [k] uses of [outputs], from a device that already has
    the [m] first ones. *)
Definition reached (limit : option Z) (m k : nat) : nat :=
  match limit with
  | Some c => if Z.of_nat m <=? c then min (m + k) (Z.to_nat c) else (m + k)%nat
  | None => (m + k)%nat
  end.

Lemma after_outputs_reached (k : nat) : ∀ (self : FPGADevice) (m : nat),
  length (pseudoclocks self) = m →
  output_devices self = numbered_devices m →
  length (pseudoclocks (after_outputs k self)) = reached (max_n self) m k
  ∧ output_devices (after_outputs k self) = numbered_devices (reached (max_n self) m k)
  ∧ max_n (after_outputs k self) = max_n self.
Proof.
  induction k as [|k IH]; intros self m Hlen Hdev.
  - cbn [after_outputs].
    assert (reached (max_n self) m 0 = m) as ->; [|done].
    unfold reached. destruct (max_n self) as [c|]; [|lia].
    destruct (Z.leb_spec (Z.of_nat m) c); lia.
  - cbn [after_outputs].
    destruct (outputs self) as [[oid self']|e] eqn:Hout.
    + pose proof (outputs_max_n _ _ _ Hout) as Hmax.
      unfold outputs in Hout. rewrite Hlen in Hout.
      case_bool_decide as Hfull; [done|].
      injection Hout as _ <-.
      destruct (IH (FPGA (fpga_name self) (n_analog self) (n_digital self)
                         (pseudoclocks self ++ [("fpga_pseudoclock" +:+ pretty m,
                                                 "clock_" +:+ pretty m)])
                         (clocklines self ++ ["fpga_output" +:+ pretty m +:+ "_clock_line"])
                         (output_devices self
                            ++ [OID ("fpga_output_device" +:+ pretty m) [] None]))
                   (S m)) as (IH1 & IH2 & IH3).
      { cbn [pseudoclocks]. rewrite length_app, Hlen. cbn. lia. }
      { cbn [output_devices]. by rewrite Hdev, numbered_devices_S. }
      rewrite Hmax in IH1, IH2, IH3.
      assert (reached (max_n self) (S m) k = reached (max_n self) m (S k)) as Heq.
      { unfold reached. destruct (max_n self) as [c|]; [|lia].
        destruct (Z.leb_spec (Z.of_nat (S m)) c), (Z.leb_spec (Z.of_nat m) c);
          try lia.
        exfalso. apply Hfull. f_equal. lia. }
      rewrite Heq in IH1, IH2. done.
    + unfold outputs in Hout. rewrite Hlen in Hout.
      case_bool_decide as Hfull; [|done].
      destruct (IH self m Hlen Hdev) as (IH1 & IH2 & IH3).
      assert (reached (max_n self) m k = reached (max_n self) m (S k)) as Heq.
      { unfold reached. rewrite <- Hfull. rewrite Z.leb_refl. lia. }
      rewrite Heq in IH1, IH2. done.
Qed.

Lemma reached_capacity (a d : option Z) (k : nat) :
  reached (max_n (FPGADevice_init EmptyString a d)) 0 k = capacity a d k.
Proof.
  unfold reached, capacity, max_n. cbn.
  destruct d as [d|], a as [a|]; try done.
Qed.

(** X11.  Starting from a new device, [k] uses of the property [outputs]
    leave exactly the output devices numbered 0, 1, ... in this order, each
    without children and without an output.  Their number is [k], except when
    both [n_analog] and [n_digital] were given with a sum that is not
    negative: then it is at most this sum.  A device with only one of the two
    counts given, or with a negative sum, has no limit. *)
Theorem outputs_capacity (name : string) (a d : option Z) (k : nat) :
  output_devices (after_outputs k (FPGADevice_init name a d))
  = numbered_devices (capacity a d k)
  ∧ length (pseudoclocks (after_outputs k (FPGADevice_init name a d))) = capacity a d k.
Proof.
  destruct (after_outputs_reached k (FPGADevice_init name a d) 0 eq_refl eq_refl)
    as (H1 & H2 & _).
  assert (reached (max_n (FPGADevice_init name a d)) 0 k = capacity a d k) as Heq
    by apply reached_capacity.
  rewrite Heq in H1, H2. done.
Qed.

(** X12.  After [k] uses of [outputs] on a new device, the next use raises
    [LabscriptError] exactly when both counts were given and their sum is
    between 0 and [k]; in every other case it returns the output device
    numbered with the number of devices so far. *)
Theorem outputs_raises_when_full (name : string) (a d : option Z) (k : nat) :
  let self := after_outputs k (FPGADevice_init name a d) in
  match outputs self with
  | Raise e =>
      (∃ msg, e = LabscriptError msg)
      ∧ ∃ c, max_n (FPGADevice_init name a d) = Some c ∧ 0 <= c <= Z.of_nat k
  | Ok (oid, _) =>
      oid = OID ("fpga_output_device" +:+ pretty k) [] None
      ∧ ∀ c, max_n (FPGADevice_init name a d) = Some c → c < 0 ∨ Z.of_nat k < c
  end.
Proof.
  intros self.
  destruct (after_outputs_reached k (FPGADevice_init name a d) 0 eq_refl eq_refl)
    as (H1 & _ & H3). fold self in H1, H3.
  unfold outputs. rewrite H1, H3.
  set (limit := max_n (FPGADevice_init name a d)).
  case_bool_decide as Hfull.
  - split; [by eexists|].
    unfold reached in Hfull. destruct limit as [c|]; [|done].
    exists c. split; [done|].
    injection Hfull as Hfull.
    destruct (Z.leb_spec (Z.of_nat 0) c); lia.
  - assert (reached limit 0 k = k) as Hk.
    { unfold reached in *. destruct limit as [c|]; [|lia].
      destruct (Z.leb_spec (Z.of_nat 0) c); [|lia].
      destruct (decide (Z.of_nat k < c)); [lia|].
      exfalso. apply Hfull. f_equal. lia. }
    rewrite Hk. split; [done|].
    intros c Hc. rewrite Hk in Hfull. unfold reached in Hk. rewrite Hc in Hk.
    destruct (Z.leb_spec (Z.of_nat 0) c); [|lia].
    destruct (decide (Z.of_nat k < c)); [lia|].
    destruct (decide (Z.of_nat k = c)) as [<-|]; [by destruct Hfull; rewrite Hc|].
    lia.
Qed.

(** * The names of the outputs, from [add_device] to the worker *)

(** ** Definitions *)

(** No character of [s] is whitespace. *)
Fixpoint ws_free (s : string) : bool :=
  match s with
  | EmptyString => true
  | String c s' => negb (is_space c) && ws_free s'
  end.

(** ** Theorems *)

Lemma split_ws_ws_free (s : string) :
  ws_free s = true → s ≠ EmptyString → split_ws s = [s].
Proof.
  induction s as [|c s IH]; [done|]. intros Hs _.
  cbn [ws_free] in Hs. apply andb_true_iff in Hs as [Hc Hs].
  apply negb_true_iff in Hc. cbn [split_ws]. rewrite Hc.
  destruct s as [|c' s']; [done|].
  rewrite IH by done.
  cbn [ws_free] in Hs. apply andb_true_iff in Hs as [Hc' _].
  apply negb_true_iff in Hc'. by rewrite Hc'.
Qed.

Lemma split_ws_cons (c c' : ascii) (s : string) :
  split_ws (String c (String c' s))
  = if is_space c then split_ws (String c' s)
    else if is_space c' then String c EmptyString :: split_ws (String c' s)
    else match split_ws (String c' s) with
         | w :: ws => String c w :: ws
         | [] => [String c EmptyString]
         end.
Proof. reflexivity. Qed.

Lemma split_ws_lstrip (s : string) : split_ws (lstrip s) = split_ws s.
Proof.
  induction s as [|c s IH]; [done|].
  cbn [lstrip]. destruct (is_space c) eqn:Hc; [|done].
  rewrite IH. cbn [split_ws]. by rewrite Hc.
Qed.

Lemma rstrip_head (s : string) c r :
  rstrip s = String c r → ∃ t, s = String c t.
Proof.
  destruct s as [|c0 s]; [done|]. cbn [rstrip].
  destruct (rstrip s); [destruct (is_space c0)|]; intros [= <- _]; by eexists.
Qed.

Lemma split_ws_rstrip (s : string) : split_ws (rstrip s) = split_ws s.
Proof.
  induction s as [|c s IH]; [done|].
  cbn [rstrip]. destruct (rstrip s) as [|c' r] eqn:Hr.
  - cbn [split_ws] in IH. destruct (is_space c) eqn:Hc.
    + cbn [split_ws]. by rewrite Hc.
    + cbn [split_ws]. rewrite Hc. destruct s as [|c' s']; [done|].
      rewrite <- IH. by destruct (is_space c').
  - destruct (rstrip_head _ _ _ Hr) as [t ->].
    by rewrite !(split_ws_cons c), IH.
Qed.

Lemma lstrip_ws_free (s : string) : ws_free s = true → lstrip s = s.
Proof.
  destruct s as [|c s]; [done|]. cbn [ws_free lstrip].
  intros [Hc _]%andb_true_iff. apply negb_true_iff in Hc. by rewrite Hc.
Qed.

Lemma rstrip_ws_free (s : string) : ws_free s = true → rstrip s = s.
Proof.
  induction s as [|c s IH]; [done|]. cbn [ws_free rstrip].
  intros [Hc Hs]%andb_true_iff. apply negb_true_iff in Hc.
  rewrite IH, Hc by done. by destruct s.
Qed.

Lemma digit_not_space (c : ascii) : is_digit c = true → is_space c = false.
Proof.
  unfold is_digit, is_space. cbv zeta.
  intros [H1 H2]%andb_true_iff.
  apply Nat.leb_le in H1. apply Nat.leb_le in H2.
  apply orb_false_iff. split.
  - apply Nat.eqb_neq. lia.
  - apply andb_false_iff. right. apply Nat.leb_gt. lia.
Qed.

Lemma digits_ws_free (s : string) : ∀ acc v,
  digits_value acc s = Some v → ws_free s = true.
Proof.
  induction s as [|c s IH]; [done|]. intros acc v. cbn [digits_value ws_free].
  destruct (is_digit c) eqn:Hc; [|done]. intros Hv.
  rewrite (digit_not_space _ Hc). by rewrite (IH _ _ Hv).
Qed.

Lemma sign_match (c : ascii) (b : string) :
  match String c b with
  | String "-" b' => (-1, b')
  | String "+" b' => (1, b')
  | _ => (1, String c b)
  end
  = if Ascii.eqb c "-" then (-1, b)
    else if Ascii.eqb c "+" then (1, b) else (1, String c b).
Proof.
  destruct c as [[] [] [] [] [] [] [] []]; reflexivity.
Qed.

(** What [int] reads is, once stripped, a non-empty string without
    whitespace. *)
Lemma int_of_string_core (s : string) n :
  int_of_string s = Ok n →
  ws_free (rstrip (lstrip s)) = true ∧ rstrip (lstrip s) ≠ EmptyString.
Proof.
  unfold int_of_string. destruct (rstrip (lstrip s)) as [|c b]; [done|].
  rewrite sign_match. intros Hn. split; [|done].
  destruct (Ascii.eqb_spec c "-") as [->|_];
    [|destruct (Ascii.eqb_spec c "+") as [->|_]].
  - destruct b; [done|]. destruct (digits_value 0 _) eqn:Hd; [|done].
    pose proof (digits_ws_free _ _ _ Hd) as Hw.
    cbn [ws_free] in *. by rewrite Hw.
  - destruct b; [done|]. destruct (digits_value 0 _) eqn:Hd; [|done].
    pose proof (digits_ws_free _ _ _ Hd) as Hw.
    cbn [ws_free] in *. by rewrite Hw.
  - destruct (digits_value 0 _) eqn:Hd; [|done].
    by rewrite (digits_ws_free _ _ _ Hd).
Qed.

Lemma int_of_string_stripped (s : string) :
  ws_free (rstrip (lstrip s)) = true →
  int_of_string (rstrip (lstrip s)) = int_of_string s.
Proof.
  intros Hs. unfold int_of_string.
  by rewrite (lstrip_ws_free _ Hs), (rstrip_ws_free _ Hs).
Qed.

(** A string that [int] reads is a single whitespace-separated token, and
    [int] reads that token as the same number. *)
Lemma int_of_string_token (s : string) n :
  int_of_string s = Ok n →
  ∃ token, split_ws s = [token] ∧ int_of_string token = Ok n.
Proof.
  intros Hn. destruct (int_of_string_core _ _ Hn) as [Hws Hne].
  exists (rstrip (lstrip s)). split.
  - by rewrite <- split_ws_lstrip, <- split_ws_rstrip, split_ws_ws_free.
  - by rewrite int_of_string_stripped.
Qed.

Lemma split_ws_prefix (kind s : string) :
  kind = "analog" ∨ kind = "digital" →
  split_ws (kind +:+ " " +:+ s) = kind :: split_ws s.
Proof.
  by intros [-> | ->].
Qed.

Lemma check_connection_inv c kind channel :
  check_connection c = Ok (kind, channel) →
  ∃ token, c = kind +:+ " " +:+ token
           ∧ (kind = "analog" ∨ kind = "digital")
           ∧ int_of_string token = Ok channel.
Proof.
  unfold check_connection.
  match goal with
  | |- match ?tokens with _ => _ end = _ → _ =>
      destruct tokens as [|k [|token [|]]] eqn:Hs; try done
  end.
  apply split_two in Hs as (-> & _ & _).
  destruct (String.eqb_spec k "analog") as [Ha|Ha];
    destruct (String.eqb_spec k "digital") as [Hd|Hd]; cbn [negb andb]; try done;
    destruct (int_of_string token) eqn:Hint; try done; cbn;
    intros [= <- <-]; exists token; auto.
Qed.

Lemma accepted_name_tokens (c kind : string) (channel : Z) :
  check_connection c = Ok (kind, channel) →
  ∃ token, split_ws c = [kind; token] ∧ int_of_string token = Ok channel.
Proof.
  intros (t & -> & Hkind & Hint)%check_connection_inv.
  destruct (int_of_string_token _ _ Hint) as (token & Hsplit & Htoken).
  exists token. by rewrite split_ws_prefix, Hsplit.
Qed.

(** X13.  The name format that [program_manual] assumes is the one
    [add_device] enforces: when the [try] block of [add_device] accepts a
    connection string with a type and a channel number, [split()] cuts the
    string into exactly two tokens, the first is that type, and [int] of the
    second is that channel number. *)
Theorem accepted_name_parses (c kind : string) (channel : Z) :
  check_connection c = Ok (kind, channel) →
  ∃ token, split_ws c = [kind; token] ∧ int_of_string token = Ok channel.
Proof.
  intros (t & -> & Hkind & Hint)%check_connection_inv.
  destruct (int_of_string_token _ _ Hint) as (token & Hsplit & Htoken).
  exists token. by rewrite split_ws_prefix, Hsplit.
Qed.

Lemma accepted_name_parses_witness :
  ∃ token, split_ws "digital 07" = ["digital"; token]
           ∧ int_of_string token = Ok 7.
Proof.
  apply accepted_name_parses. reflexivity.
Defined.

Section AcceptedNames.
Context {T : Type} `{Number T}.
Variable realtime : list (realtime_call T) → realtime_call T → option T.

Lemma program_manual_value_accepted output_name value modified w e w1 :
  is_ok (check_connection output_name) = true →
  program_manual_value realtime output_name value modified w = (Raise e, w1) →
  e = TransportError
  ∧ ∃ c, realtime_calls w1 = realtime_calls w ++ [c]
         ∧ realtime (realtime_calls w) c = None.
Proof.
  destruct (check_connection output_name) as [[kind channel]|] eqn:Hcheck; [|done].
  intros _. apply accepted_name_tokens in Hcheck as (token & Hsplit & Hint).
  unfold program_manual_value. rewrite Hsplit, Hint. cbn zeta.
  destruct (value_differs _ _); [|done].
  destruct (realtime _ _) eqn:Hcall; [done|].
  intros [= <- <-]. split; [done|]. by eexists.
Qed.

(** X14.  For outputs named as [add_device] demands, [program_manual]
    raises only when the transport does: the exception is the transport's,
    and the last call made on the interface is the one that failed.  No
    [ValueError] comes from cutting up such a name. *)
Theorem program_manual_accepted_names values w e w' :
  Forall (λ p, is_ok (check_connection p.1) = true) values →
  program_manual realtime values w = (Raise e, w') →
  e = TransportError
  ∧ ∃ calls c, realtime_calls w' = calls ++ [c] ∧ realtime calls c = None.
Proof.
  unfold program_manual. generalize (∅ : gmap string T) as modified.
  intros modified Hnames. revert modified w.
  induction Hnames as [|[name value] values Hname _ IH]; intros modified w; [done|].
  cbn [program_manual_loop].
  destruct (program_manual_value realtime name value modified w)
    as [[modified1|e1] w1] eqn:Hbody.
  - apply IH.
  - intros [= <- <-].
    apply program_manual_value_accepted in Hbody as (-> & c & Hcalls & Hnone); [|done].
    split; [done|]. by exists (realtime_calls w), c.
Qed.

End AcceptedNames.

Lemma program_manual_accepted_names_witness :
  let run := program_manual dead_board front_panel manual_start in
  TransportError = TransportError
  ∧ ∃ calls c, realtime_calls run.2 = calls ++ [c] ∧ dead_board calls c = None.
Proof.
  apply (program_manual_accepted_names dead_board front_panel manual_start).
  - repeat constructor.
  - vm_compute. reflexivity.
Defined.

(** * The tab's [initialise_GUI] *)

(** ** Definitions *)

(** The properties the tab gives an analog output. *)
Record analog_property (T : Type) := AnalogProperty {
  base_unit : string;
  property_min : T;
  property_max : T;
  property_step : T;
  decimals : Z
}.
Arguments AnalogProperty {T} base_unit property_min property_max property_step decimals.

Section Tab.
Context {T : Type} `{Number T}.

(** The loop [for name in output_names] that fills [analog_properties] and
    [digital_properties]; unpacking [name.split()] into two variables raises
    [ValueError] unless there are exactly two tokens. *)
Fixpoint properties_loop (output_names : list string)
    (analog_properties : gmap string (analog_property T))
    (digital_properties : gmap string unit)
    : result (gmap string (analog_property T) * gmap string unit) :=
  match output_names with
  | [] => Ok (analog_properties, digital_properties)
  | name :: output_names' =>
      match split_ws name with
      | [output_type; num] =>
          if String.eqb output_type "analog" then
            properties_loop output_names'
              (<[name := AnalogProperty "Hz" (of_int 0) (of_int 10)
                           (py_div (of_int 1) (of_int 10)) 3]> analog_properties)
              digital_properties
          else if String.eqb output_type "digital" then
            properties_loop output_names' analog_properties
              (<[name := ()]> digital_properties)
          else properties_loop output_names' analog_properties digital_properties
      | _ => Raise ValueError
      end
  end.

Definition output_properties (output_names : list string)
    : result (gmap string (analog_property T) * gmap string unit) :=
  properties_loop output_names ∅ ∅.

End Tab.

(** [output_name.replace(' ', '')], the name of an output in the console. *)
Fixpoint console_name (output_name : string) : string :=
  match output_name with
  | EmptyString => EmptyString
  | String c s => if Ascii.eqb c " " then console_name s else String c (console_name s)
  end.

(** The names the console holds beside the outputs. *)
Definition console_functions : list string := ["flash"; "outputs"].

(** ** Theorems *)

Section TabFacts.
Context {T : Type} `{Number T}.

Lemma properties_loop_accepted (output_names : list string) :
  Forall (λ name, is_ok (check_connection name) = true) output_names →
  ∀ (analog0 : gmap string (analog_property T)) (digital0 : gmap string unit),
  ∃ analog digital,
    properties_loop output_names analog0 digital0 = Ok (analog, digital)
    ∧ (∀ name, is_Some (analog !! name) ↔
         is_Some (analog0 !! name)
         ∨ (name ∈ output_names ∧ ∃ channel, check_connection name = Ok ("analog", channel)))
    ∧ (∀ name, is_Some (digital !! name) ↔
         is_Some (digital0 !! name)
         ∨ (name ∈ output_names ∧ ∃ channel, check_connection name = Ok ("digital", channel))).
Proof.
  induction 1 as [|name names Hname _ IH]; intros analog0 digital0.
  - exists analog0, digital0. split; [done|].
    split; intros name; rewrite elem_of_nil; tauto.
  - destruct (check_connection name) as [[kind channel]|] eqn:Hcheck; [|done].
    destruct (accepted_name_tokens _ _ _ Hcheck) as (token & Hsplit & _).
    destruct (check_connection_inv _ _ _ Hcheck) as (_ & _ & Hkind & _).
    cbn [properties_loop]. rewrite Hsplit.
    destruct Hkind as [-> | ->]; cbn [String.eqb Ascii.eqb Bool.eqb].
    + destruct (IH (<[name := AnalogProperty "Hz" (of_int 0) (of_int 10)
                                 (py_div (of_int 1) (of_int 10)) 3]> analog0) digital0)
        as (analog & digital & -> & Ha & Hd).
      assert (Hother : ¬ ∃ ch, check_connection name = Ok ("digital", ch)).
      { intros [ch Hch]. rewrite Hcheck in Hch. done. }
      exists analog, digital. split; [done|].
      split; intros n; [rewrite Ha, lookup_insert_is_Some|rewrite Hd];
        rewrite elem_of_cons; destruct (decide (name = n)) as [<-|Hne].
      * split; [intros _|intros _; left; by left].
        right. split; [by left|by exists channel].
      * assert (n = name → False) by (by intros ->). tauto.
      * tauto.
      * assert (n = name → False) by (by intros ->). tauto.
    + destruct (IH analog0 (<[name := ()]> digital0))
        as (analog & digital & -> & Ha & Hd).
      assert (Hother : ¬ ∃ ch, check_connection name = Ok ("analog", ch)).
      { intros [ch Hch]. rewrite Hcheck in Hch. done. }
      exists analog, digital. split; [done|].
      split; intros n; [rewrite Ha|rewrite Hd, lookup_insert_is_Some];
        rewrite elem_of_cons; destruct (decide (name = n)) as [<-|Hne].
      * tauto.
      * assert (n = name → False) by (by intros ->). tauto.
      * split; [intros _|intros _; left; by left].
        right. split; [by left|by exists channel].
      * assert (n = name → False) by (by intros ->). tauto.
Qed.

(** X15.  For outputs named as [add_device] demands, the loop of
    [initialise_GUI] that sorts the outputs returns, and sorts every output
    into exactly the dictionary of its type: [analog_properties] holds the
    names that [add_device] read as analog, [digital_properties] those it
    read as digital. *)
Theorem output_properties_accepted (output_names : list string) :
  Forall (λ name, is_ok (check_connection name) = true) output_names →
  ∃ (analog : gmap string (analog_property T)) (digital : gmap string unit),
    output_properties output_names = Ok (analog, digital)
    ∧ (∀ name, is_Some (analog !! name) ↔
         name ∈ output_names ∧ ∃ channel, check_connection name = Ok ("analog", channel))
    ∧ (∀ name, is_Some (digital !! name) ↔
         name ∈ output_names ∧ ∃ channel, check_connection name = Ok ("digital", channel)).
Proof.
  intros Hnames.
  destruct (properties_loop_accepted output_names Hnames ∅ ∅)
    as (analog & digital & Hrun & Ha & Hd).
  exists analog, digital. split; [done|].
  split; intros name; [rewrite Ha|rewrite Hd]; rewrite lookup_empty, is_Some_alt; tauto.
Qed.

End TabFacts.

Lemma output_properties_accepted_witness :
  ∃ (analog : gmap string (analog_property Qc)) (digital : gmap string unit),
    output_properties ["analog 0"; "digital 1"] = Ok (analog, digital)
    ∧ (∀ name, is_Some (analog !! name) ↔
         name ∈ ["analog 0"; "digital 1"]
         ∧ ∃ channel, check_connection name = Ok ("analog", channel))
    ∧ (∀ name, is_Some (digital !! name) ↔
         name ∈ ["analog 0"; "digital 1"]
         ∧ ∃ channel, check_connection name = Ok ("digital", channel)).
Proof.
  apply output_properties_accepted. repeat constructor.
Defined.

Lemma console_name_space_free (s : string) : space_free s = true → console_name s = s.
Proof.
  induction s as [|c s IH]; [done|]. cbn [space_free console_name].
  intros [Hc Hs]%andb_true_iff. apply negb_true_iff in Hc.
  by rewrite Hc, IH.
Qed.

Lemma console_name_accepted (output_name : string) :
  is_ok (check_connection output_name) = true →
  ∃ kind channel,
    output_name = kind +:+ " " +:+ channel
    ∧ (kind = "analog" ∨ kind = "digital")
    ∧ console_name output_name = kind +:+ channel.
Proof.
  intros (kind & channel & -> & Hkind & Hfree & _)%check_connection_ok.
  exists kind, channel. split_and!; [done..|].
  destruct Hkind as [-> | ->].
  - change (console_name ("analog" +:+ " " +:+ channel))
      with ("analog" +:+ console_name channel).
    by rewrite console_name_space_free.
  - change (console_name ("digital" +:+ " " +:+ channel))
      with ("digital" +:+ console_name channel).
    by rewrite console_name_space_free.
Qed.

(** X16.  In the console of the tab, outputs named as [add_device] demands
    keep apart: two different outputs never get the same console name, and
    no output gets the name [flash] or [outputs], which the console uses
    itself. *)
Theorem console_names_distinct (name1 name2 : string) :
  is_ok (check_connection name1) = true →
  is_ok (check_connection name2) = true →
  (console_name name1 = console_name name2 → name1 = name2)
  ∧ console_name name1 ∉ console_functions.
Proof.
  intros (k1 & c1 & -> & Hk1 & ->)%console_name_accepted
         (k2 & c2 & -> & Hk2 & ->)%console_name_accepted.
  split.
  - destruct Hk1 as [-> | ->], Hk2 as [-> | ->]; cbn; intros Heq;
      by simplify_eq.
  - unfold console_functions. rewrite !elem_of_cons, elem_of_nil.
    destruct Hk1 as [-> | ->]; cbn; intros [?|[?|[]]]; simplify_eq.
Qed.

Lemma console_names_distinct_witness :
  (console_name "analog 1" = console_name "digital 1" → "analog 1" = "digital 1")
  ∧ console_name "analog 1" ∉ console_functions.
Proof.
  apply console_names_distinct; reflexivity.
Defined.

(** * The run viewer's [get_traces] *)

(** ** Definitions *)

Fixpoint starts_with (sub s : string) : bool :=
  match sub, s with
  | EmptyString, _ => true
  | String a sub', String b s' => Ascii.eqb a b && starts_with sub' s'
  | String _ _, EmptyString => false
  end.

(** [sub in s] for strings. *)
Fixpoint contains (sub s : string) : bool :=
  starts_with sub s
  || match s with
     | EmptyString => false
     | String _ s' => contains sub s'
     end.

(** What [get_traces] can raise: the expander's exceptions, [KeyError] for
    an output without analog data, the exception of h5py for index 0 of an
    empty dataset, and [UnboundLocalError] for [data]. *)
Inductive viewer_exn :=
  | Expander (e : exn)
  | KeyError (key : string)
  | EmptyDataset
  | UnboundLocalError.

(** The variable [data]: the samples of an analog output, or the states of
    a digital one. *)
Inductive trace_data (T : Type) :=
  | Samples (values : list T)
  | States (states : list Z).
Arguments Samples {T} values.
Arguments States {T} states.

(** A call [add_trace(output_name, (change_times, data), '', '')]. *)
Record trace (T : Type) := Trace {
  trace_name : string;
  change_times : list T;
  trace_values : trace_data T
}.
Arguments Trace {T} trace_name change_times trace_values.
Arguments trace_name {T} _.
Arguments change_times {T} _.
Arguments trace_values {T} _.

(** [[(initial_state + i) % 2 for i in range(n)]] *)
Definition digital_states (initial_state : Z) (n : nat) : list Z :=
  (λ i : nat, (initial_state + Z.of_nat i) `mod` 2) <$> seq 0 n.

Section Viewer.
Context {T : Type} `{Number T}.

(** The loop [for output_name in clocks_group].  [data] is the variable of
    that name, [None] as long as it is unbound; [traces] are the calls of
    [add_trace] made so far, which remain when the loop raises. *)
Fixpoint traces_loop (group : device_group T) (clock_limit stop_time : T)
    (datasets : list (string * list (Z * Z))) (data : option (trace_data T))
    (traces : list (trace T)) : list (trace T) * option viewer_exn :=
  match datasets with
  | [] => (traces, None)
  | (output_name, clock) :: datasets' =>
      match expand_clock clock clock_limit stop_time with
      | Raise e => (traces, Some (Expander e))
      | Ok times =>
          if contains "analog" output_name then
            match group_get (analog_data group) output_name with
            | None => (traces, Some (KeyError output_name))
            | Some values =>
                traces_loop group clock_limit stop_time datasets' (Some (Samples values))
                  (traces ++ [Trace output_name times (Samples values)])
            end
          else if contains "digital" output_name then
            let times := of_int 0 :: times in
            match clock with
            | [] => (traces, Some EmptyDataset)
            | (_, initial_state) :: _ =>
                let states := States (digital_states initial_state (length times)) in
                traces_loop group clock_limit stop_time datasets' (Some states)
                  (traces ++ [Trace output_name times states])
            end
          else
            match data with
            | None => (traces, Some UnboundLocalError)
            | Some d =>
                traces_loop group clock_limit stop_time datasets' data
                  (traces ++ [Trace output_name times d])
            end
      end
  end.

(** [get_traces]: the traces added, and the exception if it raises. *)
Definition get_traces (group : device_group T) (clock_limit stop_time : T)
    : list (trace T) * option viewer_exn :=
  traces_loop group clock_limit stop_time (clocks group) None [].

End Viewer.

(** Each state is one minus the state before it. *)
Fixpoint alternating (states : list Z) : Prop :=
  match states with
  | a :: (b :: _) as rest => b = 1 - a ∧ alternating rest
  | _ => True
  end.

(** What the trace of one dataset of the clocks group has to be. *)
Definition trace_of {T : Type} `{Number T} (group : device_group T)
    (clock_limit stop_time : T) (dataset : string * list (Z * Z)) (t : trace T) : Prop :=
  trace_name t = dataset.1
  ∧ ∃ times, expand_clock dataset.2 clock_limit stop_time = Ok times
    ∧ (((∃ channel, check_connection dataset.1 = Ok ("analog", channel))
        ∧ change_times t = times
        ∧ ∃ values, group_get (analog_data group) dataset.1 = Some values
                    ∧ trace_values t = Samples values)
       ∨ ((∃ channel, check_connection dataset.1 = Ok ("digital", channel))
          ∧ change_times t = of_int 0 :: times
          ∧ ∃ states, trace_values t = States states
                      ∧ length states = length (change_times t)
                      ∧ head states = (λ tick, tick.2 `mod` 2) <$> head dataset.2
                      ∧ alternating states)).

(** What [get_traces] needs of a dataset of the clocks group: a name that
    [add_device] accepts, analog data if the name says analog, and a first
    tick if it says digital. *)
Definition shown {T : Type} (group : device_group T)
    (dataset : string * list (Z * Z)) : Prop :=
  match check_connection dataset.1 with
  | Ok (kind, _) =>
      if String.eqb kind "analog"
      then is_Some (group_get (analog_data group) dataset.1)
      else dataset.2 ≠ []
  | Raise _ => False
  end.

(** ** Theorems *)

(** No character of [s] is the letter a. *)
Fixpoint no_a (s : string) : bool :=
  match s with
  | EmptyString => true
  | String c s' => negb (Ascii.eqb c "a") && no_a s'
  end.

Lemma space_not_a (c : ascii) : is_space c = true → Ascii.eqb c "a" = false.
Proof.
  intros Hc. destruct (Ascii.eqb_spec c "a") as [->|]; [done|done].
Qed.

Lemma digit_not_a (c : ascii) : is_digit c = true → Ascii.eqb c "a" = false.
Proof.
  intros Hc. destruct (Ascii.eqb_spec c "a") as [->|]; [done|done].
Qed.

Lemma no_a_lstrip (s : string) : no_a (lstrip s) = true → no_a s = true.
Proof.
  induction s as [|c s IH]; [done|]. cbn [lstrip no_a].
  destruct (is_space c) eqn:Hc; [|done].
  intros Hs. by rewrite (space_not_a _ Hc), IH.
Qed.

Lemma no_a_rstrip (s : string) : no_a (rstrip s) = true → no_a s = true.
Proof.
  induction s as [|c s IH]; [done|]. cbn [rstrip].
  destruct (rstrip s) as [|c' r].
  - destruct (is_space c) eqn:Hc; cbn [no_a].
    + intros _. by rewrite (space_not_a _ Hc), IH.
    + intros [Ha _]%andb_true_iff. by rewrite Ha, IH.
  - change (no_a (String c (String c' r))) with (negb (Ascii.eqb c "a") && no_a (String c' r)).
    cbn [no_a]. intros [Ha Hr]%andb_true_iff. by rewrite Ha, IH.
Qed.

Lemma no_a_digits (s : string) : ∀ acc v, digits_value acc s = Some v → no_a s = true.
Proof.
  induction s as [|c s IH]; [done|]. intros acc v. cbn [digits_value no_a].
  destruct (is_digit c) eqn:Hc; [|done]. intros Hv.
  by rewrite (digit_not_a _ Hc), (IH _ _ Hv).
Qed.

Lemma no_a_int (s : string) n : int_of_string s = Ok n → no_a s = true.
Proof.
  intros Hn. apply no_a_lstrip, no_a_rstrip. revert Hn.
  unfold int_of_string. destruct (rstrip (lstrip s)) as [|c b]; [done|].
  rewrite sign_match.
  destruct (Ascii.eqb_spec c "-") as [->|_];
    [|destruct (Ascii.eqb_spec c "+") as [->|_]].
  - destruct b; [done|]. destruct (digits_value 0 _) eqn:Hd; [|done].
    intros _. pose proof (no_a_digits _ _ _ Hd) as Hw.
    cbn [no_a] in *. by rewrite Hw.
  - destruct b; [done|]. destruct (digits_value 0 _) eqn:Hd; [|done].
    intros _. pose proof (no_a_digits _ _ _ Hd) as Hw.
    cbn [no_a] in *. by rewrite Hw.
  - destruct (digits_value 0 _) eqn:Hd; [|done].
    intros _. by rewrite (no_a_digits _ _ _ Hd).
Qed.

Lemma contains_analog_no_a (s : string) : no_a s = true → contains "analog" s = false.
Proof.
  induction s as [|c s IH]; [done|]. cbn [no_a].
  intros [Hc Hs]%andb_true_iff. apply negb_true_iff in Hc.
  cbn [contains starts_with]. rewrite Ascii.eqb_sym, Hc. by apply IH.
Qed.

(** The words [get_traces] looks for are in the names that [add_device]
    accepts: the one of the type read by [add_device], and only that one. *)
Lemma contains_accepted (output_name kind : string) (channel : Z) :
  check_connection output_name = Ok (kind, channel) →
  contains "analog" output_name = String.eqb kind "analog"
  ∧ (kind = "digital" → contains "digital" output_name = true).
Proof.
  intros (token & -> & Hkind & Hint)%check_connection_inv.
  destruct Hkind as [-> | ->].
  - done.
  - split; [|done].
    change (contains "analog" ("digital" +:+ " " +:+ token))
      with (contains "analog" token).
    by rewrite (contains_analog_no_a _ (no_a_int _ _ Hint)).
Qed.

Lemma digital_states_length (initial_state : Z) (n : nat) :
  length (digital_states initial_state n) = n.
Proof.
  unfold digital_states. by rewrite length_fmap, length_seq.
Qed.

Lemma alternating_states (initial_state : Z) (n : nat) : ∀ k,
  alternating ((λ i : nat, (initial_state + Z.of_nat i) `mod` 2) <$> seq k n).
Proof.
  induction n as [|n IH]; intros k; [done|].
  cbn [seq fmap list_fmap]. destruct n as [|n]; [done|].
  specialize (IH (S k)). cbn [seq fmap list_fmap] in *. split; [|exact IH].
  pose proof (Z.div_mod (initial_state + Z.of_nat k) 2).
  pose proof (Z.div_mod (initial_state + Z.of_nat (S k)) 2).
  pose proof (Z.mod_pos_bound (initial_state + Z.of_nat k) 2).
  pose proof (Z.mod_pos_bound (initial_state + Z.of_nat (S k)) 2).
  lia.
Qed.

Section ViewerFacts.
Context {T : Type} `{Number T}.

Lemma traces_loop_shown (group : device_group T) (clock_limit stop_time : T)
    (datasets : list (string * list (Z * Z))) :
  Forall (shown group) datasets →
  ∀ data traces,
  ∃ new, traces_loop group clock_limit stop_time datasets data traces
         = (traces ++ new, None)
         ∧ Forall2 (trace_of group clock_limit stop_time) datasets new.
Proof.
  induction 1 as [|[output_name clock] datasets Hshown _ IH]; intros data traces.
  - exists []. by rewrite app_nil_r.
  - cbn [traces_loop]. unfold shown in Hshown. cbn [fst snd] in Hshown.
    destruct (check_connection output_name) as [[kind channel]|] eqn:Hcheck; [|done].
    destruct (contains_accepted _ _ _ Hcheck) as [Hanalog Hdigital].
    destruct (check_connection_inv _ _ _ Hcheck) as (_ & _ & Hkind & _).
    destruct (expand_clock_not_beyond clock clock_limit stop_time)
      as (times & Htimes & _).
    rewrite Htimes, Hanalog.
    destruct Hkind as [-> | ->]; cbn [String.eqb Ascii.eqb Bool.eqb] in *.
    + destruct Hshown as [values Hvalues]. rewrite Hvalues.
      destruct (IH (Some (Samples values))
                   (traces ++ [Trace output_name times (Samples values)]))
        as (new & -> & Hnew).
      eexists (_ :: new). rewrite <- app_assoc. split; [done|].
      constructor; [|done]. split; [done|]. exists times. split; [done|].
      left. split; [by exists channel|]. split; [done|]. by exists values.
    + rewrite Hdigital by done.
      destruct clock as [|[n_clocks initial_state] clock]; [done|].
      cbn zeta.
      destruct (IH (Some (States (digital_states initial_state
                                    (length (of_int 0 :: times)))))
                   (traces ++ [Trace output_name (of_int 0 :: times)
                                 (States (digital_states initial_state
                                            (length (of_int 0 :: times))))]))
        as (new & -> & Hnew).
      eexists (_ :: new). rewrite <- app_assoc. split; [done|].
      constructor; [|done]. split; [done|]. exists times. split; [done|].
      right. split; [by exists channel|]. split; [done|].
      eexists. split; [done|]. split_and!.
      * by rewrite digital_states_length.
      * cbn. by rewrite Z.add_0_r.
      * apply alternating_states.
Qed.

(** X17.  For a shot file whose clock datasets are named as [add_device]
    demands, with analog data for each name that says analog and at least
    one tick for each name that says digital, [get_traces] returns and adds
    one trace per dataset, in the order of the group.  An analog trace has
    the times of the expander and the samples of the analog data; a digital
    trace has the time 0 before the times of the expander and as many states
    as times, which start with the toggles of the first tick modulo 2 and
    then alternate. *)
Theorem get_traces_shown (group : device_group T) (clock_limit stop_time : T) :
  Forall (shown group) (clocks group) →
  ∃ traces, get_traces group clock_limit stop_time = (traces, None)
            ∧ Forall2 (trace_of group clock_limit stop_time) (clocks group) traces.
Proof.
  intros Hshown.
  destruct (traces_loop_shown group clock_limit stop_time (clocks group) Hshown None [])
    as (new & Hrun & Hnew).
  by exists new.
Qed.

End ViewerFacts.

Definition viewer_group : device_group Qc :=
  DeviceGroup
    [("analog 0", [(9, 0); (9, 1)]); ("digital 1", [(4, 1); (4, 2)])]
    [("analog 0", [Qc_of_Z 1; Qc_of_Z 2])]
    [].

Lemma get_traces_shown_witness :
  ∃ traces, get_traces viewer_group (Qc_of_Z 10) (Qc_of_Z 5) = (traces, None)
            ∧ Forall2 (trace_of viewer_group (Qc_of_Z 10) (Qc_of_Z 5))
                (clocks viewer_group) traces.
Proof.
  apply get_traces_shown.
  constructor; [by eexists|].
  constructor; [done|]. constructor.
Defined.

(** * [FPGADevice.generate_code] *)

(** ** Definitions *)

(** What [generate_code] can raise: its two [LabscriptError]s, the
    [AttributeError] of [None.connection], the [IndexError] of
    [self.output_devices[i]], the exceptions of the encoder, the
    [OverflowError] of numpy for an integer that its [int] does not hold, and
    the exception of h5py for a name that exists already. *)
Inductive generate_exn :=
  | WrongOutputs (msg : string)
  | NoOutputConnected (msg : string)
  | AttributeError
  | OutputIndexError
  | FromEncoder (e : exn)
  | ArrayOverflow
  | NameExists (name : string).

(** The group [/devices/<name>] that [generate_code] writes: the datasets
    of its three subgroups, in the order in which they were created, and the
    attributes [stop_time], [clock_limit] and [clock_resolution] once they
    are set. *)
Record shot_file (T : Type) := ShotFile {
  file_clocks : list (string * list (Z * Z));
  file_analog_data : list (string * list T);
  file_analog_limits : list (string * (T * T));
  file_attrs : option (T * T * T)
}.
Arguments ShotFile {T} file_clocks file_analog_data file_analog_limits file_attrs.
Arguments file_clocks {T} _.
Arguments file_analog_data {T} _.
Arguments file_analog_limits {T} _.
Arguments file_attrs {T} _.

(** [group.create_dataset(name, data=data)]: h5py raises when the name
    exists in the group. *)
Definition create_dataset {A : Type} (group : list (string * A)) (name : string)
    (data : A) : generate_exn + list (string * A) :=
  if bool_decide (name ∈ group.*1) then inl (NameExists name)
  else inr (group ++ [(name, data)]).

(** The classes [outputs.count] tells apart. *)
Inductive output_class := AnalogOutClass | DigitalOutClass | AnotherClass.

Global Instance output_class_eq_dec : EqDecision output_class.
Proof. solve_decision. Defined.

(** [not n] for a number of outputs that may be [None]. *)
Definition unspecified (n : option Z) : bool :=
  match n with
  | None => true
  | Some n => n =? 0
  end.

Definition is_analog (o : output) : bool :=
  match o with AnalogOut => true | _ => false end.

(** A pseudoclock, by its name, with the output of its output device. *)
Definition with_output (p : (string * string) * OutputIntermediateDevice)
    : option (string * device) :=
  (λ output, (p.1.1, output)) <$> output_of p.2.

(** The pseudoclocks that have an output, each by its name and with its
    output, in the order of [self.pseudoclocks]. *)
Definition connected (self : FPGADevice) : list (string * device) :=
  omap with_output (zip (pseudoclocks self) (output_devices self)).

Section GenerateCode.
Context {T : Type} `{Number T}.

(** What labscript knows of an output: its class as [isinstance] sees it,
    with [raw_output] for a digital output; whether [__class__] is
    [AnalogOut] or [DigitalOut] itself and not a subclass; [raw_output] of an
    analog output; [limits]. *)
Variable output_kind : device → output.
Variable exact_class : device → bool.
Variable analog_raw_output : device → list T.
Variable limits : device → option (T * T).

(** [pseudoclock.clock] after [PseudoclockDevice.generate_code], which is
    labscript's and taken to return, by the name of the pseudoclock. *)
Variable clock_of : string → list (instruction T).

Variable stop_time : T.

(** Whether numpy's [int] holds an integer. *)
Variable fits_int : Z → bool.

(** [FPGADevice.clock_limit], [100e6], and [clock_resolution], [1e-9]. *)
Definition device_clock_limit : T := of_int 100000000.
Definition device_clock_resolution : T := py_div (of_int 1) (of_int 1000000000).

(** [output_device.output.__class__] *)
Definition class_of (output_device : OutputIntermediateDevice) : output_class :=
  match output_of output_device with
  | None => AnotherClass
  | Some output =>
      if exact_class output then
        match output_kind output with
        | AnalogOut => AnalogOutClass
        | DigitalOut _ => DigitalOutClass
        | OtherOutput _ => AnotherClass
        end
      else AnotherClass
  end.

(** [outputs.count(c)] *)
Definition count_class (self : FPGADevice) (c : output_class) : Z :=
  Z.of_nat (length (filter (λ od, class_of od = c) (output_devices self))).

(** The check of the numbers of outputs, with which [generate_code]
    starts.  The numbers that were not specified are set on the device
    before the check, and stay when it raises. *)
Definition check_outputs (self : FPGADevice) : option generate_exn * FPGADevice :=
  let found_analog := count_class self AnalogOutClass in
  let found_digital := count_class self DigitalOutClass in
  let n_digital' :=
    if unspecified (n_digital self) then found_digital
    else default 0 (n_digital self) in
  let n_analog' :=
    if unspecified (n_analog self) then found_analog
    else default 0 (n_analog self) in
  let self' := FPGA (fpga_name self) (Some n_analog') (Some n_digital')
                 (pseudoclocks self) (clocklines self) (output_devices self) in
  if negb (n_analog' =? found_analog) || negb (n_digital' =? found_digital) then
    (Some (WrongOutputs
       ("FPGADevice '" +:+ fpga_name self
          +:+ "' does not have enough outputs attached. Expected "
          +:+ pretty n_digital' +:+ " digital, " +:+ pretty n_analog'
          +:+ " analog but found " +:+ pretty found_digital +:+ " digital, "
          +:+ pretty found_analog +:+ " analog")),
     self')
  else (None, self').

Definition set_attrs (f : shot_file T) : shot_file T :=
  ShotFile (file_clocks f) (file_analog_data f) (file_analog_limits f)
    (Some (stop_time, device_clock_limit, device_clock_resolution)).

(** The body of the loop [for i, pseudoclock in enumerate(self.pseudoclocks)]. *)
Definition write_output (self : FPGADevice) (i : nat) (pseudoclock : string * string)
    (f : shot_file T) : option generate_exn * shot_file T :=
  match output_devices self !! i with
  | None => (Some OutputIndexError, f)
  | Some output_device =>
      let output := output_of output_device in
      match connection <$> output with
      | None => (Some AttributeError, f)
      | Some output_connection =>
          match output with
          | None =>
              (Some (NoOutputConnected
                 ("OutputDevice '" +:+ name output_device
                    +:+ "' has no Output connected!")), f)
          | Some output =>
              match convert_to_clocks_and_toggles
                      (reduce_clock_instructions (clock_of pseudoclock.1))
                      (output_kind output) device_clock_limit with
              | Raise e => (Some (FromEncoder e), f)
              | Ok ct_clock =>
                  if negb (forallb (λ tick, fits_int tick.1 && fits_int tick.2) ct_clock)
                  then (Some ArrayOverflow, f)
                  else
                    match create_dataset (file_clocks f) output_connection ct_clock with
                    | inl e => (Some e, f)
                    | inr clocks' =>
                        let f := ShotFile clocks' (file_analog_data f)
                                   (file_analog_limits f) (file_attrs f) in
                        if is_analog (output_kind output) then
                          match create_dataset (file_analog_data f) output_connection
                                  (analog_raw_output output) with
                          | inl e => (Some e, f)
                          | inr data' =>
                              let f := ShotFile (file_clocks f) data'
                                         (file_analog_limits f) (file_attrs f) in
                              match limits output with
                              | None => (None, set_attrs f)
                              | Some range =>
                                  match create_dataset (file_analog_limits f)
                                          output_connection range with
                                  | inl e => (Some e, f)
                                  | inr limits' =>
                                      (None,
                                       set_attrs (ShotFile (file_clocks f)
                                                    (file_analog_data f) limits'
                                                    (file_attrs f)))
                                  end
                              end
                          end
                        else (None, set_attrs f)
                    end
              end
          end
      end
  end.

Fixpoint outputs_loop (self : FPGADevice) (i : nat) (pseudoclocks : list (string * string))
    (f : shot_file T) : option generate_exn * shot_file T :=
  match pseudoclocks with
  | [] => (None, f)
  | pseudoclock :: pseudoclocks' =>
      match write_output self i pseudoclock f with
      | (None, f') => outputs_loop self (S i) pseudoclocks' f'
      | (Some e, f') => (Some e, f')
      end
  end.

(** [generate_code], for a file that has no group of this device yet: the
    exception if it raises, the device, and the group of the device in the
    file if it was created. *)
Definition generate_code (self : FPGADevice)
    : option generate_exn * FPGADevice * option (shot_file T) :=
  match check_outputs self with
  | (Some e, self') => (Some e, self', None)
  | (None, self') =>
      let '(e, f) := outputs_loop self' 0 (pseudoclocks self') (ShotFile [] [] [] None) in
      (e, self', Some f)
  end.

(** ** Theorems *)

(** The datasets one pass of the loop adds for an output. *)
Definition analog_data_of (c : string * device) : list (string * list T) :=
  if is_analog (output_kind c.2)
  then [(connection c.2, analog_raw_output c.2)] else [].

Definition analog_limits_of (c : string * device) : list (string * (T * T)) :=
  if is_analog (output_kind c.2)
  then match limits c.2 with
       | Some range => [(connection c.2, range)]
       | None => []
       end
  else [].

Lemma create_dataset_inr {A : Type} (group : list (string * A)) name data group' :
  create_dataset group name data = inr group' →
  (name ∉ group.*1) ∧ group' = group ++ [(name, data)].
Proof.
  unfold create_dataset. case_bool_decide; [done|]. by intros [= <-].
Qed.

(** What a pass of the loop body that does not raise has done. *)
Lemma write_output_ok (self : FPGADevice) i pseudoclock f f1 :
  write_output self i pseudoclock f = (None, f1) →
  ∃ od output ct_clock,
    output_devices self !! i = Some od
    ∧ output_of od = Some output
    ∧ convert_to_clocks_and_toggles
        (reduce_clock_instructions (clock_of pseudoclock.1))
        (output_kind output) device_clock_limit = Ok ct_clock
    ∧ (connection output ∉ (file_clocks f).*1)
    ∧ file_clocks f1 = file_clocks f ++ [(connection output, ct_clock)]
    ∧ file_analog_data f1
      = file_analog_data f ++ analog_data_of (pseudoclock.1, output)
    ∧ file_analog_limits f1
      = file_analog_limits f ++ analog_limits_of (pseudoclock.1, output)
    ∧ file_attrs f1 = Some (stop_time, device_clock_limit, device_clock_resolution).
Proof.
  unfold write_output, analog_data_of, analog_limits_of. cbn [snd].
  destruct (output_devices self !! i) as [od|] eqn:Hod; [|done].
  destruct (output_of od) as [output|] eqn:Hout; [|done].
  cbn [fmap option_fmap option_map].
  destruct (convert_to_clocks_and_toggles _ _ _) as [ct_clock|e] eqn:Hct; [|done].
  destruct (negb _); [done|].
  destruct (create_dataset (file_clocks f) _ _) as [e|clocks'] eqn:Hclocks; [done|].
  apply create_dataset_inr in Hclocks as [Hnew ->]. cbn [snd].
  destruct (is_analog (output_kind output)) eqn:Hanalog.
  - cbn [file_analog_data file_analog_limits file_clocks file_attrs].
    destruct (create_dataset (file_analog_data f) _ _) as [e|data'] eqn:Hdata; [done|].
    apply create_dataset_inr in Hdata as [_ ->].
    destruct (limits output) as [range|] eqn:Hlimit.
    + destruct (create_dataset (file_analog_limits f) _ _) as [e|limits'] eqn:Hlimits;
        [done|].
      apply create_dataset_inr in Hlimits as [_ ->].
      intros [= <-]. exists od, output, ct_clock. rewrite Hanalog, Hlimit.
      by split_and!.
    + intros [= <-]. exists od, output, ct_clock. rewrite Hanalog, Hlimit.
      split_and!; try done. cbn. by rewrite app_nil_r.
  - intros [= <-]. exists od, output, ct_clock. rewrite Hanalog.
    split_and!; try done; cbn; by rewrite app_nil_r.
Qed.

Lemma write_output_raises (self : FPGADevice) i pseudoclock f e f1 msg :
  write_output self i pseudoclock f = (Some e, f1) → e ≠ NoOutputConnected msg.
Proof.
  unfold write_output.
  destruct (output_devices self !! i) as [od|]; [|by intros [= <- _]].
  destruct (output_of od) as [output|]; [|by intros [= <- _]].
  cbn [fmap option_fmap option_map].
  destruct (convert_to_clocks_and_toggles _ _ _) as [ct_clock|e']; [|by intros [= <- _]].
  destruct (negb _); [by intros [= <- _]|].
  unfold create_dataset.
  case_bool_decide; [by intros [= <- _]|].
  destruct (is_analog _); [|done]. cbn [file_analog_data file_analog_limits].
  case_bool_decide; [by intros [= <- _]|].
  destruct (limits output); [|done].
  case_bool_decide; [by intros [= <- _]|done].
Qed.

Lemma outputs_loop_raises (self : FPGADevice) pseudoclocks : ∀ i f e f1 msg,
  outputs_loop self i pseudoclocks f = (Some e, f1) → e ≠ NoOutputConnected msg.
Proof.
  induction pseudoclocks as [|pc pcs IH]; intros i f e f1 msg; [done|].
  cbn [outputs_loop].
  destruct (write_output self i pc f) as [[e'|] f'] eqn:Hbody.
  - intros [= <- <-]. by eapply write_output_raises.
  - apply IH.
Qed.

Lemma check_outputs_device (self : FPGADevice) :
  pseudoclocks (check_outputs self).2 = pseudoclocks self
  ∧ output_devices (check_outputs self).2 = output_devices self.
Proof.
  unfold check_outputs. cbv zeta. by destruct (_ || _).
Qed.

Lemma check_outputs_raises (self : FPGADevice) e msg :
  (check_outputs self).1 = Some e → e ≠ NoOutputConnected msg.
Proof.
  unfold check_outputs. cbv zeta. destruct (_ || _); [|done].
  by intros [= <-].
Qed.

(** X18.  [generate_code] never raises the [LabscriptError] that says an
    output device has no output connected: [output.connection] is read
    before [output] is compared with [None]. *)
Theorem generate_code_never_reports_missing_output (self : FPGADevice) (msg : string) :
  (generate_code self).1.1 ≠ Some (NoOutputConnected msg).
Proof.
  unfold generate_code.
  destruct (check_outputs self) as [[e|] self'] eqn:Hcheck.
  - cbn. intros [= ->].
    by apply (check_outputs_raises self _ msg (f_equal fst Hcheck)).
  - destruct (outputs_loop self' 0 (pseudoclocks self') (ShotFile [] [] [] None))
      as [[e|] f] eqn:Hloop; cbn; [|done].
    intros [= ->]. by eapply outputs_loop_raises.
Qed.

Lemma outputs_loop_missing (self : FPGADevice) pseudoclocks : ∀ i j f od,
  (j < length pseudoclocks)%nat →
  output_devices self !! (i + j)%nat = Some od →
  output_of od = None →
  is_Some (outputs_loop self i pseudoclocks f).1.
Proof.
  induction pseudoclocks as [|pc pcs IH]; intros i j f od Hj Hod Hnone;
    [simpl in Hj; lia|].
  cbn [outputs_loop].
  destruct (write_output self i pc f) as [[e'|] f'] eqn:Hbody; [by eexists|].
  destruct j as [|j].
  - apply write_output_ok in Hbody as (od' & output & _ & Hod' & Hsome & _).
    rewrite Nat.add_0_r in Hod. congruence.
  - apply (IH (S i) j f' od); [simpl in Hj; lia| |done].
    by replace (S i + j)%nat with (i + S j)%nat by lia.
Qed.

(** X19.  When a pseudoclock's output device has no output, [generate_code]
    raises: the check of the numbers fails, or the loop raises at this
    output device or before it. *)
Theorem generate_code_missing_output (self : FPGADevice) (i : nat) od :
  (i < length (pseudoclocks self))%nat →
  output_devices self !! i = Some od →
  output_of od = None →
  is_Some (generate_code self).1.1.
Proof.
  intros Hi Hod Hnone. unfold generate_code.
  destruct (check_outputs_device self) as [Hpcs Hods].
  destruct (check_outputs self) as [[e|] self'] eqn:Hcheck; [by eexists|].
  cbn [snd] in Hpcs, Hods.
  pose proof (outputs_loop_missing self' (pseudoclocks self') 0 i
                (ShotFile [] [] [] None) od) as Hloop.
  rewrite Hpcs, Hods in Hloop. specialize (Hloop Hi Hod Hnone). rewrite Hpcs.
  by destruct (outputs_loop self' 0 (pseudoclocks self) (ShotFile [] [] [] None)).
Qed.

(** What the dataset of the clocks group is for a pseudoclock with its
    output: named by the connection of the output, and holding the encoded
    form of the reduced clock. *)
Definition clock_dataset (c : string * device) (dataset : string * list (Z * Z)) : Prop :=
  dataset.1 = connection c.2
  ∧ convert_to_clocks_and_toggles (reduce_clock_instructions (clock_of c.1))
      (output_kind c.2) device_clock_limit = Ok dataset.2.

Lemma outputs_loop_ok (self : FPGADevice) pseudoclocks : ∀ i f f',
  outputs_loop self i pseudoclocks f = (None, f') →
  ∃ cs new,
    omap with_output (zip pseudoclocks (drop i (output_devices self))) = cs
    ∧ length cs = length pseudoclocks
    ∧ file_clocks f' = file_clocks f ++ new
    ∧ Forall2 clock_dataset cs new
    ∧ (NoDup (file_clocks f).*1 → NoDup (file_clocks f').*1)
    ∧ file_analog_data f' = file_analog_data f ++ (cs ≫= analog_data_of)
    ∧ file_analog_limits f' = file_analog_limits f ++ (cs ≫= analog_limits_of).
Proof.
  induction pseudoclocks as [|pc pcs IH]; intros i f f'.
  - intros [= <-]. exists [], []. rewrite !app_nil_r. by split_and!.
  - cbn [outputs_loop].
    destruct (write_output self i pc f) as [[e|] f1] eqn:Hbody; [done|].
    apply write_output_ok in Hbody
      as (od & output & ct & Hod & Hout & Hct & Hnew & Hclocks & Hdata & Hlimits & _).
    intros (cs & new & Hcs & Hlen & Hclocks' & Hnew' & Hdup & Hdata' & Hlimits')%IH.
    exists ((pc.1, output) :: cs), ((connection output, ct) :: new).
    split_and!.
    + rewrite (drop_S _ _ _ Hod). cbn [zip zip_with omap list_omap].
      unfold with_output at 1. cbn [fst snd]. rewrite Hout. cbn. by rewrite Hcs.
    + cbn. by rewrite Hlen.
    + by rewrite Hclocks', Hclocks, <- app_assoc.
    + by constructor.
    + intros Hf. apply Hdup. rewrite Hclocks, fmap_app. apply NoDup_app.
      split_and!; [done| |apply NoDup_singleton].
      intros n Hn [->|[]%elem_of_nil]%elem_of_cons. done.
    + by rewrite Hdata', Hdata, <- app_assoc.
    + by rewrite Hlimits', Hlimits, <- app_assoc.
Qed.

(** X20.  What the file holds when [generate_code] returns.  Every
    pseudoclock has an output.  The clocks group holds one dataset per
    pseudoclock, in their order, named by the connection of the output and
    holding the encoded form of the reduced clock; no two outputs have the
    same connection.  The analog data group holds [raw_output] for exactly
    the outputs that are instances of [AnalogOut], and the limits group the
    limits of those of them that have limits. *)
Theorem generate_code_file (self self' : FPGADevice) file :
  generate_code self = (None, self', file) →
  ∃ f, file = Some f
       ∧ length (connected self) = length (pseudoclocks self)
       ∧ Forall2 clock_dataset (connected self) (file_clocks f)
       ∧ NoDup (file_clocks f).*1
       ∧ file_analog_data f = connected self ≫= analog_data_of
       ∧ file_analog_limits f = connected self ≫= analog_limits_of.
Proof.
  unfold generate_code. destruct (check_outputs_device self) as [Hpcs Hods].
  destruct (check_outputs self) as [[e|] self1]; [done|]. cbn [snd] in Hpcs, Hods.
  destruct (outputs_loop self1 0 (pseudoclocks self1) (ShotFile [] [] [] None))
    as [e f] eqn:Hloop.
  intros [= -> <- <-]. exists f. split; [done|].
  apply outputs_loop_ok in Hloop
    as (cs & new & Hcs & Hlen & Hclocks & Hnew & Hdup & Hdata & Hlimits).
  rewrite Hpcs, Hods in *. rewrite drop_0 in Hcs. unfold connected. rewrite Hcs.
  cbn in Hclocks, Hdata, Hlimits. rewrite Hclocks, Hdata, Hlimits.
  split_and!; try done. rewrite <- Hclocks. apply Hdup. constructor.
Qed.

Lemma count_classes (ods : list OutputIntermediateDevice) :
  Forall (λ od, class_of od ≠ AnotherClass) ods →
  (length (filter (λ od, class_of od = AnalogOutClass) ods)
   + length (filter (λ od, class_of od = DigitalOutClass) ods))%nat
  = length ods.
Proof.
  induction 1 as [|od ods Hod _ IH]; [done|].
  rewrite !filter_cons.
  destruct (class_of od); [| |done];
    repeat case_decide; try done; cbn [length]; lia.
Qed.

(** X21.  When the check of the numbers of outputs passes for a device on
    which every output device holds an output whose class is [AnalogOut] or
    [DigitalOut] itself, the device is full afterwards: the numbers that
    were not specified have been set to the numbers found, and the property
    [outputs] raises [LabscriptError], whatever the rest of [generate_code]
    did. *)
Theorem generate_code_fills_device (self : FPGADevice) :
  (∀ msg, (generate_code self).1.1 ≠ Some (WrongOutputs msg)) →
  length (pseudoclocks self) = length (output_devices self) →
  Forall (λ od, class_of od ≠ AnotherClass) (output_devices self) →
  ∃ msg, outputs (generate_code self).1.2 = Raise (LabscriptError msg).
Proof.
  intros Hcheck Hlen Hclasses. revert Hcheck.
  unfold generate_code, check_outputs. cbv zeta.
  pose proof (count_classes _ Hclasses) as Hcount.
  set (found_analog := count_class self AnalogOutClass) in *.
  set (found_digital := count_class self DigitalOutClass) in *.
  set (a := if unspecified (n_analog self) then found_analog
            else default 0 (n_analog self)).
  set (d := if unspecified (n_digital self) then found_digital
            else default 0 (n_digital self)).
  destruct (negb (a =? found_analog) || negb (d =? found_digital)) eqn:Hwrong.
  - intros Hcheck. by destruct (Hcheck _ eq_refl).
  - intros _. apply orb_false_iff in Hwrong as [Ha Hd].
    apply negb_false_iff, Z.eqb_eq in Ha. apply negb_false_iff, Z.eqb_eq in Hd.
    set (self1 := FPGA (fpga_name self) (Some a) (Some d) (pseudoclocks self)
                    (clocklines self) (output_devices self)).
    assert (∃ msg, outputs self1 = Raise (LabscriptError msg)) as Hfull.
    { unfold outputs, max_n. cbn [n_digital n_analog pseudoclocks self1].
      rewrite bool_decide_eq_true_2; [by eexists|].
      f_equal. rewrite Ha, Hd. unfold found_analog, found_digital, count_class.
      rewrite Hlen, <- Hcount. lia. }
    by destruct (outputs_loop self1 0 (pseudoclocks self1) (ShotFile [] [] [] None)).
Qed.

Lemma convert_loop_extends (clock : list (dict T)) output clock_limit i ct_clock ticks :
  convert_loop (S i) clock output clock_limit ct_clock = Ok ticks →
  ∃ rest, ticks = ct_clock ++ rest.
Proof.
  rewrite convert_loop_later.
  destruct (result_map (later_tick clock_limit) clock) as [rest|e]; [|done].
  intros [= <-]. by exists rest.
Qed.

(** The encoder returns at least one tick for a list that is not empty. *)
Lemma convert_nonempty (tick : dict T) clock output clock_limit ticks :
  convert_to_clocks_and_toggles (tick :: clock) output clock_limit = Ok ticks →
  ticks ≠ [].
Proof.
  unfold convert_to_clocks_and_toggles. cbn [convert_loop]. unfold convert_tick.
  rewrite bool_decide_eq_true_2 by done.
  destruct (initial_state_of output) as [s0|e]; [|done]. simpl.
  destruct (hold_clocks tick clock_limit) as [n|e]; [|done]. simpl.
  destruct (reps tick - 1 =? 0).
  - intros [rest ->]%convert_loop_extends. done.
  - unfold append_toggles.
    destruct (hold_clocks _ clock_limit) as [n'|e]; [|done]. simpl.
    intros [rest ->]%convert_loop_extends. done.
Qed.

Lemma group_get_is_Some {A : Type} (group : list (string * A)) (key : string) :
  is_Some (group_get group key) ↔ key ∈ group.*1.
Proof.
  induction group as [|[k v] group IH]; cbn [group_get].
  - rewrite fmap_nil, elem_of_nil. split; [by intros [? ?]|done].
  - rewrite fmap_cons, elem_of_cons. cbn [fst].
    destruct (String.eqb_spec k key) as [->|Hne].
    + split; [by left|by eexists].
    + rewrite IH. split; [by right|]. intros [->|?]; done.
Qed.

(** The names of the outputs are fit for the run viewer: [add_device]
    accepts the connection, and an output whose connection says analog is an
    instance of [AnalogOut]. *)
Definition viewer_names (c : string * device) : Prop :=
  match check_connection (connection c.2) with
  | Ok (kind, _) => kind = "analog" → is_analog (output_kind c.2) = true
  | Raise _ => False
  end.

(** X22.  From the compiler to the run viewer.  Let [generate_code] return
    for a device whose outputs have connections that [add_device] accepts,
    where each output whose connection says analog is an instance of
    [AnalogOut], and whose pseudoclocks have clock lists that are not empty.
    Then [get_traces] on the written group returns, in whatever order the
    file lists the datasets, and adds one trace per pseudoclock. *)
Theorem generated_file_is_shown (self self' : FPGADevice) (f : shot_file T)
    (group : device_group T) (clock_limit viewer_stop_time : T) :
  generate_code self = (None, self', Some f) →
  Forall viewer_names (connected self) →
  Forall (λ c, clock_of c.1 ≠ []) (connected self) →
  clocks group ≡ₚ file_clocks f →
  analog_data group ≡ₚ file_analog_data f →
  ∃ traces, get_traces group clock_limit viewer_stop_time = (traces, None)
            ∧ length traces = length (pseudoclocks self).
Proof.
  intros Hrun Hnames Hclock Hperm_clocks Hperm_data.
  revert Hrun. unfold generate_code.
  destruct (check_outputs_device self) as [Hpcs Hods].
  destruct (check_outputs self) as [[e|] self1]; [done|]. cbn [snd] in Hpcs, Hods.
  destruct (outputs_loop self1 0 (pseudoclocks self1) (ShotFile [] [] [] None))
    as [e f1] eqn:Hloop.
  intros [= -> <- <-].
  apply outputs_loop_ok in Hloop
    as (cs & new & Hcs & Hlen & Hclocks & Hnew & _ & Hdata & _).
  rewrite Hpcs, Hods in *. rewrite drop_0 in Hcs. fold (connected self) in Hcs.
  cbn in Hclocks, Hdata. subst cs.
  assert (Forall (shown group) (clocks group)) as Hshown.
  { rewrite Hperm_clocks, Hclocks. apply Forall_forall. intros [n ct] Hin.
    apply list_elem_of_lookup_1 in Hin as [i Hi].
    destruct (Forall2_lookup_r _ _ _ _ _ Hnew Hi) as ([pc output] & Hc & Hn & Hct).
    cbn [fst snd] in Hn, Hct. subst n.
    apply list_elem_of_lookup_2 in Hc.
    rewrite Forall_forall in Hnames, Hclock.
    specialize (Hnames _ Hc). specialize (Hclock _ Hc).
    unfold viewer_names in Hnames. unfold shown. cbn [fst snd] in *.
    destruct (check_connection (connection output)) as [[kind channel]|]; [|done].
    destruct (String.eqb_spec kind "analog") as [Hkind|_].
    - apply group_get_is_Some. rewrite Hperm_data, Hdata.
      apply list_elem_of_fmap. exists (connection output, analog_raw_output output).
      split; [done|]. apply list_elem_of_bind. exists (pc, output).
      split; [|done]. unfold analog_data_of. cbn [snd].
      rewrite (Hnames Hkind). by apply list_elem_of_singleton.
    - destruct (clock_of pc) as [|instr clock] eqn:Hpc; [done|].
      rewrite reduce_cons in Hct.
      destruct (run _ clock) as [|tick ticks] eqn:Hrun; [by apply run_nonempty in Hrun|].
      by apply convert_nonempty in Hct. }
  destruct (traces_loop_shown group clock_limit viewer_stop_time (clocks group)
              Hshown None []) as (traces & Htraces & Hall).
  exists traces. split; [done|].
  apply Forall2_length in Hall. apply Forall2_length in Hnew.
  apply Permutation_length in Hperm_clocks.
  rewrite <- Hall, Hperm_clocks, Hclocks, <- Hnew. done.
Qed.

End GenerateCode.

(** A device with an analog and a digital output, and the same device with
    the second output missing. *)
Definition analog_example : device := Device "ao0" "analog output" "analog 0".
Definition digital_example : device := Device "do1" "digital output" "digital 1".

Definition example_kind (d : device) : output :=
  if String.eqb (device_name d) "ao0" then AnalogOut else DigitalOut [1; 0].

Definition example_samples (d : device) : list Qc := [Qc_of_Z 1; Qc_of_Z 2].

Definition example_limits (d : device) : option (Qc * Qc) :=
  Some (Qc_of_Z 0, Qc_of_Z 10).

Definition example_clock (pseudoclock : string) : list (instruction Qc) :=
  [Instr (Dict (ratio 1 10) 2); WAIT; Instr (Dict (ratio 1 5) 3)].

Definition int64 (z : Z) : bool := (- 2 ^ 63 <=? z) && (z <? 2 ^ 63).

Definition example_device : FPGADevice :=
  FPGA "fpga" None None
    [("fpga_pseudoclock0", "clock_0"); ("fpga_pseudoclock1", "clock_1")]
    ["fpga_output0_clock_line"; "fpga_output1_clock_line"]
    [OID "fpga_output_device0" [analog_example] (Some analog_example);
     OID "fpga_output_device1" [digital_example] (Some digital_example)].

Definition unconnected_device : FPGADevice :=
  FPGA "fpga" None None
    [("fpga_pseudoclock0", "clock_0"); ("fpga_pseudoclock1", "clock_1")]
    ["fpga_output0_clock_line"; "fpga_output1_clock_line"]
    [OID "fpga_output_device0" [analog_example] (Some analog_example);
     OID "fpga_output_device1" [] None].

Definition example_generate_code (self : FPGADevice)
    : option generate_exn * FPGADevice * option (shot_file Qc) :=
  generate_code example_kind (λ _, true) example_samples example_limits
    example_clock (Qc_of_Z 1) int64 self.

Lemma generate_code_missing_output_witness :
  is_Some (example_generate_code unconnected_device).1.1.
Proof.
  apply (generate_code_missing_output example_kind (λ _, true) example_samples
           example_limits example_clock (Qc_of_Z 1) int64 unconnected_device 1%nat
           (OID "fpga_output_device1" [] None)).
  - simpl. lia.
  - reflexivity.
  - reflexivity.
Defined.

Lemma generate_code_file_witness :
  ∃ f, (example_generate_code example_device).2 = Some f
       ∧ length (connected example_device) = length (pseudoclocks example_device)
       ∧ Forall2 (clock_dataset example_kind example_clock)
           (connected example_device) (file_clocks f)
       ∧ NoDup (file_clocks f).*1
       ∧ file_analog_data f
         = connected example_device ≫= analog_data_of example_kind example_samples
       ∧ file_analog_limits f
         = connected example_device ≫= analog_limits_of example_kind example_limits.
Proof.
  apply (generate_code_file example_kind (λ _, true) example_samples
           example_limits example_clock (Qc_of_Z 1) int64 example_device
           (example_generate_code example_device).1.2).
  vm_compute. reflexivity.
Defined.

Lemma generate_code_fills_device_witness :
  ∃ msg, outputs (example_generate_code example_device).1.2
         = Raise (LabscriptError msg).
Proof.
  apply (generate_code_fills_device example_kind (λ _, true) example_samples
           example_limits example_clock (Qc_of_Z 1) int64 example_device).
  - intros msg. vm_compute. discriminate.
  - reflexivity.
  - repeat constructor; vm_compute; discriminate.
Defined.

(** The group that [generate_code] writes for [example_device], read with
    the datasets in the order of their creation. *)
Definition example_file : shot_file Qc :=
  default (ShotFile [] [] [] None) (example_generate_code example_device).2.

Definition example_written : device_group Qc :=
  DeviceGroup (file_clocks example_file) (file_analog_data example_file)
    (file_analog_limits example_file).

Lemma generated_file_is_shown_witness :
  ∃ traces, get_traces example_written (Qc_of_Z 100000000) (Qc_of_Z 1) = (traces, None)
            ∧ length traces = length (pseudoclocks example_device).
Proof.
  apply (generated_file_is_shown example_kind (λ _, true) example_samples
           example_limits example_clock (Qc_of_Z 1) int64 example_device
           (example_generate_code example_device).1.2 example_file example_written).
  - vm_compute. reflexivity.
  - constructor; [intros _; reflexivity|].
    constructor; [intros [=]|]. constructor.
  - repeat constructor; done.
  - reflexivity.
  - reflexivity.
Defined.

(** * The final state [transition_to_buffered] returns *)

Section FinalState.
Context {T : Type} `{Number T}.
Variable interface : list (call T) → call T → bool.

Lemma clock_loop_entries fresh_program group datasets :
  ∀ i final_state w final_state' w',
  for_enumerate (program_clock interface fresh_program group) i datasets final_state w
    = (Ok final_state', w') →
  cache_data w' = cache_data w
  ∧ ∀ output, is_Some (final_state' !! output) ↔
      is_Some (final_state !! output)
      ∨ (output ∈ datasets.*1 ∧ group_get (analog_data group) output = None).
Proof.
  induction datasets as [|[name clock] datasets IH];
    intros i final_state w final_state' w'.
  - intros [= <- <-]. split; [done|]. intros output.
    rewrite fmap_nil, elem_of_nil. tauto.
  - rewrite for_enumerate_cons.
    destruct (program_clock interface fresh_program group i name clock final_state w)
      as [[final_state1|e] w1] eqn:Hbody; [|done].
    pose proof (program_clock_any _ _ _ _ _ _ _ _ _ _ Hbody) as (_ & Hdata1 & _).
    rewrite program_clock_unfold in Hbody. cbn zeta in Hbody.
    destruct (_ && _); [done|].
    intros (Hdata & Hkeys)%IH. split; [congruence|]. intros output.
    rewrite Hkeys, fmap_cons, elem_of_cons. cbn [fst].
    destruct (group_get (analog_data group) name) as [samples|] eqn:Hname.
    + injection Hbody as <- _.
      destruct (decide (output = name)) as [->|Hne].
      * rewrite Hname. assert (Some samples = None → False) by done. tauto.
      * tauto.
    + destruct clock as [|first clock]; [done|]. injection Hbody as <- _.
      rewrite lookup_insert_is_Some.
      destruct (decide (name = output)) as [<-|Hne]; [by split; auto|].
      assert (output = name → False) by (by intros ->). tauto.
Qed.

Lemma data_loop_entries fresh_program group datasets :
  ∀ i final_state w final_state' w',
  NoDup (datasets.*1) →
  for_enumerate (program_data interface fresh_program group) i datasets final_state w
    = (Ok final_state', w') →
  ∀ output, is_Some (final_state' !! output) ↔
    is_Some (final_state !! output)
    ∨ ∃ data, (output, data) ∈ datasets
              ∧ fresh_program || changed py_eq data (cache_data w !! output) = true.
Proof.
  induction datasets as [|[name data] datasets IH];
    intros i final_state w final_state' w' Hnd.
  - intros [= <- <-] output. split; [by left|].
    intros [?|(d & []%elem_of_nil & _)]. done.
  - rewrite fmap_cons in Hnd. apply NoDup_cons in Hnd as [Hname Hnd]. cbn [fst] in Hname.
    rewrite for_enumerate_cons, program_data_unfold. cbn zeta.
    destruct (fresh_program || changed py_eq data (cache_data w !! name)) eqn:Hsend.
    + destruct (last data) as [x|]; [|done].
      destruct (interface _ _); [|done].
      intros Hkeys output. rewrite (IH _ _ _ _ _ Hnd Hkeys output).
      cbn [cache_data]. rewrite lookup_insert_is_Some.
      destruct (decide (name = output)) as [<-|Hne].
      * split; [intros _|intros _; left; by left].
        right. exists data. split; [by left|done].
      * rewrite lookup_insert_ne by done. split.
        -- intros [[?|[_ ?]]|(d & Hd & Hs)]; [done|by left|].
           right. exists d. split; [by right|done].
        -- intros [?|(d & [[= ? ?]|Hd]%elem_of_cons & Hs)]; [left; by right|done|].
           right. by exists d.
    + intros Hkeys output. rewrite (IH _ _ _ _ _ Hnd Hkeys output). split.
      * intros [?|(d & Hd & Hs)]; [by left|]. right. exists d. split; [by right|done].
      * intros [?|(d & [[= -> ->]|Hd]%elem_of_cons & Hs)]; [by left|congruence|].
        right. by exists d.
Qed.

(** X23.  The outputs in the dictionary that [transition_to_buffered]
    returns: every dataset of the clocks group that has no dataset of its
    name in the analog data group, and every dataset of the analog data group
    that was transmitted in this run.  So without a fresh program, an analog
    output whose data is the cached data has no final value in the
    dictionary. *)
Theorem final_state_entries group fresh_program w final_state w' (output : string) :
  NoDup (analog_data group).*1 →
  transition_to_buffered interface group fresh_program w = (Ok final_state, w') →
  is_Some (final_state !! output) ↔
    (output ∈ (clocks group).*1 ∧ group_get (analog_data group) output = None)
    ∨ ∃ data, (output, data) ∈ analog_data group
              ∧ fresh_program || changed py_eq data (cache_data w !! output) = true.
Proof.
  intros Hnd. unfold transition_to_buffered, mbind, M_bind.
  destruct (for_enumerate (program_clock interface fresh_program group) 0
              (clocks group) ∅ w) as [[final_state1|e] w1] eqn:Hclocks; [|done].
  apply clock_loop_entries in Hclocks as [Hdata Hkeys1].
  intros Hkeys.
  rewrite (data_loop_entries _ _ _ _ _ _ _ _ Hnd Hkeys output), Hkeys1, Hdata.
  rewrite lookup_empty, is_Some_alt. tauto.
Qed.

End FinalState.

Lemma final_state_entries_witness :
  let run := transition_to_buffered transport_up example_group false fresh_worker in
  is_Some (returned run !! "analog 0") ↔
    ("analog 0" ∈ (clocks example_group).*1
     ∧ group_get (analog_data example_group) "analog 0" = None)
    ∨ ∃ data, ("analog 0", data) ∈ analog_data example_group
              ∧ false || changed py_eq data (cache_data fresh_worker !! "analog 0") = true.
Proof.
  apply (final_state_entries transport_up example_group false fresh_worker
           (returned (transition_to_buffered transport_up example_group false
                        fresh_worker))
           (transition_to_buffered transport_up example_group false fresh_worker).2
           "analog 0").
  - apply (bool_decide_unpack _). vm_compute. exact I.
  - vm_compute. reflexivity.
Defined.
